(** * Evenflow MCP world adapter: a shallow embedding and its properties

    The development follows [src/mcp/world_adapter.py] (class
    [EvenflowAdapter]), [src/mcp/schemas.py], [src/mcp/tools.py] and the
    [explain_valuation] branch of [src/aws/lambda_handler.py].

    Modelling conventions.
    - A Python [float] is modelled by the rational it denotes ([Q]); values
      are compared as rationals.  Where the adapter computes with floats to
      decide something (the cutoff and the category totals of a history
      summary) the operations are those of IEEE 754 binary64: the exact
      result rounded to the nearest double, ties to even, with overflow to
      an infinity ([round64], type [float]).  Python [int] is [Z]; converting
      an [int] too large for a double raises [OverflowError].
    - A character is a code point below 256, on which [str.lower] is given
      by [lower].
    - [time.time()] is an explicit argument ([now]) of each operation.
    - A Python [dict] is an insertion-ordered association list with the
      update-in-place-or-append discipline of [d[k] = v] (module [PyDict]).
    - [Location] objects are mutable and shared by reference: the adapter
      holds a dictionary from location ids to references into a heap of
      [Location] values.  [copy.deepcopy] allocates a fresh cell. *)

From Stdlib Require Import QArith Qround Qabs ZArith Lia Ascii String.
From stdpp Require Import base option list sets sorting strings.

Set Default Proof Using "Type".
Local Open Scope Q_scope.

(* ===================================================================== *)
(** ** Python values *)
(* ===================================================================== *)

(** Comparison of floats: [a < b], [a > b], [a >= b]. *)
Definition Qltb (a b : Q) : bool := negb (Qle_bool b a).
Definition Qgtb (a b : Q) : bool := Qltb b a.
Definition Qgeb (a b : Q) : bool := Qle_bool b a.

Global Instance Qle_decision (a b : Q) : Decision (a <= b).
Proof.
  destruct (Qlt_le_dec b a); [right; by apply Qlt_not_le | by left].
Defined.

(** [max(0, x)]: Python keeps the first argument unless the second is
    strictly greater. *)
Definition py_max0 (x : Q) : Q := if Qltb 0 x then x else 0.

(** Insertion-ordered dictionaries. *)
Module PyDict.
Notation dict K V := (list (K * V)) (only parsing).

Section Dict.
Context {K V : Type} `{EqDecision K}.

(** [d.get(k)] *)
Fixpoint get (d : dict K V) (k : K) : option V :=
  match d with
  | [] => None
  | (k', v) :: d' => if decide (k = k') then Some v else get d' k
  end.

(** [d[k] = v]: an existing key keeps its position, a new key goes last. *)
Fixpoint set (d : dict K V) (k : K) (v : V) : dict K V :=
  match d with
  | [] => [(k, v)]
  | (k', v') :: d' =>
      if decide (k = k') then (k', v) :: d' else (k', v') :: set d' k v
  end.

(** [d.keys()], [d.values()], [d.items()] in iteration order. *)
Definition keys (d : dict K V) : list K := fst <$> d.
Definition values (d : dict K V) : list V := snd <$> d.
Definition items (d : dict K V) : list (K * V) := d.

(** Keys of a dictionary are pairwise distinct. *)
Definition wf (d : dict K V) : Prop := NoDup (keys d).
End Dict.
End PyDict.
Import PyDict.

(** [s.split('.')[0]]: the characters before the first ['.'], the whole
    string when there is none. *)
Fixpoint split_dot_head (s : string) : string :=
  match s with
  | EmptyString => EmptyString
  | String c s' =>
      if Ascii.eqb c "."%char then EmptyString else String c (split_dot_head s')
  end.

(** Truth value of an [Optional[str]]: [None] and [""] are falsy. *)
Definition str_truthy (o : option string) : bool :=
  match o with
  | Some s => negb (String.eqb s "")
  | None => false
  end.

(** [xs[:stop]] for an [int] stop: a negative stop counts from the end. *)
Definition slice_to {A} (xs : list A) (stop : Z) : list A :=
  if (stop <? 0)%Z
  then take (Z.to_nat (Z.of_nat (length xs) + stop)) xs
  else take (Z.to_nat stop) xs.

(** [xs.sort(key=key, reverse=True)]: a stable sort, largest key first;
    elements with equal keys keep their relative order. *)
Section Sort.
Context {A : Type} (key : A → Q).

Fixpoint insert_desc (x : A) (l : list A) : list A :=
  match l with
  | [] => [x]
  | y :: l' =>
      if Qltb (key x) (key y) then y :: insert_desc x l' else x :: y :: l'
  end.

Definition sort_desc (l : list A) : list A := foldr insert_desc [] l.
End Sort.

(** Exceptions raised by the adapter, and results of fallible calls. *)
Inductive exn :=
| KeyError (k : string)
| OverflowError          (* int too large to convert to float *)
| TypeError              (* 'NoneType' object is not iterable *)
| AttributeError.        (* 'NoneType' object has no attribute 'get' *)

Inductive result (A : Type) :=
| Ok (a : A)
| Raise (e : exn).
Global Arguments Ok {A} a.
Global Arguments Raise {A} e.

(** *** Float arithmetic

    The result of a float operation: a double, given by its rational
    value, or an infinity.  The operations below never meet a NaN: their
    operands are finite, or an infinity and a finite value. *)
Inductive float :=
| Finite (q : Q)
| Inf (negative : bool).

Definition pow2 (e : Z) : Q := Qpower 2 e.

(** The exponent [e] with [2^e <= x < 2^(e+1)], for a positive [x]. *)
Definition binade (x : Q) : Z :=
  let e := (Z.log2 (Qnum x) - Z.log2 (Zpos (Qden x)))%Z in
  if Qle_bool (pow2 e) x then e else (e - 1)%Z.

(** The nearest integer, the even one of two that are equally near. *)
Definition round_half_even (x : Q) : Z :=
  let f := Qfloor x in
  match Qcompare (x - inject_Z f) (1 # 2) with
  | Lt => f
  | Gt => (f + 1)%Z
  | Eq => if Z.even f then f else (f + 1)%Z
  end.

(** Rounding to binary64: 53 significant bits, the spacing of the
    subnormals below [2^-1022], and an infinity from [2^1024] on. *)
Definition round64 (x : Q) : float :=
  if Qeq_bool x 0 then Finite 0 else
  let a := Qabs x in
  let quantum := pow2 (Z.max (binade a) (-1022) - 52) in
  let r := Qred (inject_Z (round_half_even (a / quantum)) * quantum) in
  if Qle_bool (pow2 1024) r then Inf (Qltb x 0)
  else Finite (if Qltb x 0 then - r else r).

(** A float literal of the source. *)
Definition literal (x : Q) : float := round64 x.

(** [float(n)] for an [int], as in [x - n] with a float [x]. *)
Definition float_of_int (n : Z) : result Q :=
  match round64 (inject_Z n) with
  | Finite q => Ok q
  | Inf _ => Raise OverflowError
  end.

(** [x - y] and [t + y] for floats; the sum takes a running total that may
    have overflowed. *)
Definition fsub (x y : Q) : float := round64 (x - y).

Definition fadd (t : float) (y : Q) : float :=
  match t with
  | Finite x => round64 (x + y)
  | Inf negative => Inf negative
  end.

(** [x < y], [x <= y], [x > y], [x >= y] *)
Definition fltb (x y : float) : bool :=
  match x, y with
  | Finite p, Finite q => Qltb p q
  | Finite _, Inf negative => negb negative
  | Inf negative, Finite _ => negative
  | Inf n, Inf m => n && negb m
  end.
Definition fleb (x y : float) : bool := negb (fltb y x).
Definition fgtb (x y : float) : bool := fltb y x.
Definition fgeb (x y : float) : bool := fleb y x.

(** *** Strings *)

(** [c.lower()] for one character: the letters [A]-[Z] and the upper-case
    letters of Latin-1 ([U+00C0]-[U+00DE] without the multiplication sign)
    move up by 32, every other character stays. *)
Definition lower_char (c : ascii) : ascii :=
  let n := nat_of_ascii c in
  if (65 <=? n)%nat && (n <=? 90)%nat
     || (192 <=? n)%nat && (n <=? 222)%nat && negb (n =? 215)%nat
  then ascii_of_nat (n + 32) else c.

(** [s.lower()] *)
Fixpoint lower (s : string) : string :=
  match s with
  | EmptyString => EmptyString
  | String c s' => String (lower_char c) (lower s')
  end.

(* ===================================================================== *)
(** ** Schemas ([src/mcp/schemas.py]) *)
(* ===================================================================== *)

Inductive DecayChannel := PERSONAL | GROUP | BEHAVIOR.

Definition DecayChannel_value (c : DecayChannel) : string :=
  match c with
  | PERSONAL => "personal"
  | GROUP => "group"
  | BEHAVIOR => "behavior"
  end.

Module LocationQuery.
Record t := mk {
  location_id : string;
  include_traces : bool;
  include_affordances : bool;
  decay_to_now : bool }.
(** [LocationQuery(location_id=...)] with the dataclass defaults. *)
Definition of_id (location_id : string) : t := mk location_id true true true.
End LocationQuery.

Module TraceQuery.
Record t := mk {
  location_id : option string;
  actor_id : option string;
  event_type : option string;
  channel : option DecayChannel;
  min_intensity : Q;
  limit : Z }.
End TraceQuery.

Module ActionPrediction.
Record t := mk {
  actor_id : string;
  actor_tags : list string;
  location_id : string;
  event_type : string;
  intensity : Q }.
End ActionPrediction.

Module TraceInfo.
Record t := mk {
  key : string;
  channel : string;
  accumulated : Q;
  decayed_value : Q;
  last_updated : Q;
  event_count : Z;
  is_scar : bool }.
End TraceInfo.

Module AffordanceInfo.
Record t := mk {
  affordance_type : string;
  enabled : bool;
  mechanical_handle : option string;
  severity_clamp_hostile : Q;
  severity_clamp_favorable : Q;
  cooldown_seconds : Z;
  cooldown_remaining : option Q;
  tells_hostile : list string;
  tells_favorable : list string }.
End AffordanceInfo.

Module LocationState.
Record t := mk {
  location_id : string;
  name : string;
  description : string;
  valuation_profile : dict string Q;
  saturation : dict string Q;
  traces : list TraceInfo.t;
  affordances : list AffordanceInfo.t;
  last_tick : Q }.
End LocationState.

Module AffinityScore.
Record t := mk {
  total : Q;
  personal : Q;
  group : Q;
  behavior : Q;
  threshold_label : string }.
End AffinityScore.

Module ActionConsequence.
Record t := mk {
  location_id : string;
  actor_id : string;
  event_type : string;
  affinity_before : option AffinityScore.t;
  affinity_after : option AffinityScore.t;
  triggered_affordances : list string;
  narrative_hints : list string }.
End ActionConsequence.

(** The dictionaries appended to [dominant_events]. *)
Module DominantEvent.
Record t := mk {
  event_type : string;
  actor : string;
  intensity : Q;
  count : Z }.
End DominantEvent.

Module WorldHistorySummary.
Record t := mk {
  location_id : string;
  time_window_days : Z;
  dominant_events : list DominantEvent.t;
  notable_actors : list string;
  mood : string;
  folklore_seeds : list string }.
End WorldHistorySummary.

(** The dictionary returned by the [explain_valuation] tool; the keys
  ["category"] and ["explanation"] are optional. *)
Module Valuation.
Record t := mk {
  event_type : string;
  weight : Q;
  match_type : string;
  category : option string;
  explanation : option string }.
End Valuation.

(** The dictionaries built by [export_world_state]. *)
Module ExportTrace.
Record t := mk {
  key : string;
  channel : string;
  accumulated : Q;
  decayed_value : Q;
  event_count : Z;
  is_scar : bool }.
End ExportTrace.

Module ExportAffordance.
Record t := mk {
  type : string;
  enabled : bool;
  mechanical_handle : option string }.
End ExportAffordance.

Module ExportEntry.
Record t := mk {
  location_id : string;
  name : string;
  description : string;
  valuation_profile : dict string Q;
  saturation : dict string Q;
  traces : list ExportTrace.t;
  affordances : list ExportAffordance.t }.
End ExportEntry.

(* ===================================================================== *)
(** ** Core data ([world.affinity.core], [world.affinity.config]) *)
(* ===================================================================== *)

(** Modelled from the spec: the dataclasses of [world.affinity.core] and the
  configuration object of [world.affinity.config] are imported by the
  adapter but their declarations are not part of the sources at hand.
  The records below carry the fields the adapter reads, with the types
  the data model gives them. *)

Module Channels.
Record t := mk { personal : Q; group : Q; behavior : Q }.
End Channels.

Module TraceRecord.
Record t := mk {
  accumulated : Q;
  last_updated : Q;
  event_count : Z;
  is_scar : bool }.
End TraceRecord.

Module AffordanceConfig.
Record t := mk {
  affordance_type : string;
  enabled : bool;
  mechanical_handle : option string;
  severity_clamp_hostile : Q;
  severity_clamp_favorable : Q;
  cooldown_seconds : Z;
  tells_hostile : list string;
  tells_favorable : list string }.
End AffordanceConfig.

Module Location.
Record t := mk {
  location_id : string;
  name : string;
  description : string;
  valuation_profile : dict string Q;
  affordances : list AffordanceConfig.t;
  personal_traces : dict (string * string) TraceRecord.t;
  group_traces : dict (string * string) TraceRecord.t;
  behavior_traces : dict string TraceRecord.t;
  saturation : Channels.t;
  cooldowns : dict string Q;
  last_tick : Q }.
End Location.

Module AffinityEvent.
Record t := mk {
  event_type : string;
  actor_id : string;
  actor_tags : list string;
  location_id : string;
  intensity : Q }.
End AffinityEvent.

Module Config.
Record t := mk {
  half_lives_location : Channels.t;   (* config.half_lives.location, days *)
  channel_weights : Channels.t }.
End Config.

(* ===================================================================== *)
(** ** Adapter state *)
(* ===================================================================== *)

(** References to [Location] objects. *)
Notation ref := nat (only parsing).

Module Adapter.
Record t := mk {
  _locations : dict string ref;     (* self._locations *)
  heap : list Location.t }.         (* the objects the references denote *)

(** The object a reference denotes. *)
Definition deref (a : t) (r : ref) : option Location.t := heap a !! r.

(** Every stored reference denotes an object, and ids are distinct keys. *)
Definition wf (a : t) : Prop :=
  PyDict.wf (_locations a) ∧
  Forall (λ r, r < length (heap a))%nat (values (_locations a)).

(** [self._locations[location_id] = r] *)
Definition set_location (a : t) (location_id : string) (r : ref) : t :=
  mk (set (_locations a) location_id r) (heap a).

(** A new object holding [v]; returns its reference. *)
Definition alloc (a : t) (v : Location.t) : ref * t :=
  (length (heap a), mk (_locations a) (heap a ++ [v])).

(** In-place mutation of the object behind [r]. *)
Definition mutate (a : t) (r : ref) (f : Location.t → Location.t) : t :=
  match heap a !! r with
  | Some v => mk (_locations a) (<[r := f v]> (heap a))
  | None => a
  end.

(** [copy.deepcopy(r)]: a fresh object with the same contents, sharing
    nothing with the original. *)
Definition deepcopy (a : t) (r : ref) : option (ref * t) :=
  v ← deref a r; Some (alloc a v).

(** The adapter before any location is loaded. *)
Definition init : t := mk [] [].

(** [self._locations[location.location_id] = location] for a newly parsed
    location, as in [_load_yaml_locations]. *)
Definition load (a : t) (location : Location.t) : t :=
  let '(r, a') := alloc a location in
  set_location a' (Location.location_id location) r.
End Adapter.

(* ===================================================================== *)
(** ** The adapter ([src/mcp/world_adapter.py]) *)
(* ===================================================================== *)

(** Replies of the tool layer: a payload, or the [{"error": ...}] dictionary. *)
Inductive tool_reply (A : Type) :=
| ToolOk (a : A)
| ToolError (msg : string).
Global Arguments ToolOk {A} a.
Global Arguments ToolError {A} msg.

(** Keys of personal and group traces as rendered by the f-string
    ["({actor_id}, {event_type})"]. *)
Definition pair_key (a e : string) : string := "(" +:+ a +:+ ", " +:+ e +:+ ")".

Definition mk_trace_info (key channel : string) (trace : TraceRecord.t)
    (decayed : Q) : TraceInfo.t :=
  TraceInfo.mk key channel
    (TraceRecord.accumulated trace) decayed
    (TraceRecord.last_updated trace)
    (TraceRecord.event_count trace)
    (TraceRecord.is_scar trace).

(** [f and x != f] for an optional filter [f]. *)
Definition filter_rejects (f : option string) (x : string) : bool :=
  str_truthy f && negb (bool_decide (Some x = f)).

(** [query.channel is None or query.channel.value == name] *)
Definition channel_selected (c : option DecayChannel) (name : string) : bool :=
  match c with
  | None => true
  | Some c => String.eqb (DecayChannel_value c) name
  end.

(** [s.add(x)] on a set kept as a duplicate-free list. *)
Definition set_add (x : string) (s : list string) : list string :=
  if bool_decide (x ∈ s) then s else s ++ [x].

(** The functions of [world.affinity] the adapter calls and the
    configuration object.  Their code is not part of the sources at hand;
    every result below holds for any implementation of this interface.
    [log_event location event] mutates the [Location] object it is given and
    nothing else, which is what its functional type records; its last
    argument is the clock reading it takes.

    The last two fields are [list(s)] for a [set] of strings: Python leaves
    the iteration order of a set unspecified, so [list_of_set] is any
    function that returns the members, given in the order in which they
    were added, in some order. *)
Class WorldAffinity := {
  config : Config.t;
  get_decayed_value : TraceRecord.t → Q → Q → Q;
  score_personal :
    dict (string * string) TraceRecord.t → string → Q → dict string Q → Q → Q;
  score_group :
    dict (string * string) TraceRecord.t → list string → Q → dict string Q
    → Q → Q;
  score_behavior : dict string TraceRecord.t → Q → dict string Q → Q → Q;
  get_threshold_label : Q → string;
  log_event : Location.t → AffinityEvent.t → Q → Location.t;
  is_affordance_enabled : string → bool;
  list_of_set : list string → list string;
  list_of_set_perm : ∀ s, list_of_set s ≡ₚ s }.

Section Engine.
Context `{WorldAffinity}.

Definition personal_hl : Q :=
  Channels.personal (Config.half_lives_location config) * 86400.
Definition group_hl : Q :=
  Channels.group (Config.half_lives_location config) * 86400.
Definition behavior_hl : Q :=
  Channels.behavior (Config.half_lives_location config) * 86400.

(** [get_location]: [self._locations.get(location_id)], a reference to the
    object or [None]. *)
Definition get_location (a : Adapter.t) (location_id : string) : option ref :=
  get (Adapter._locations a) location_id.

Definition list_locations (a : Adapter.t) : list string :=
  keys (Adapter._locations a).

(** *** get_location_state *)

Definition state_traces (query : LocationQuery.t) (location : Location.t)
    (now : Q) : list TraceInfo.t :=
  let decay hl trace :=
    if LocationQuery.decay_to_now query
    then get_decayed_value trace hl now
    else TraceRecord.accumulated trace in
  let traces := [] in
  let traces :=
    foldl (λ traces '((actor_id, event_type), trace),
             traces ++ [mk_trace_info (pair_key actor_id event_type) "personal"
                          trace (decay personal_hl trace)])
          traces (items (Location.personal_traces location)) in
  let traces :=
    foldl (λ traces '((actor_tag, event_type), trace),
             traces ++ [mk_trace_info (pair_key actor_tag event_type) "group"
                          trace (decay group_hl trace)])
          traces (items (Location.group_traces location)) in
  let traces :=
    foldl (λ traces '(event_type, trace),
             traces ++ [mk_trace_info event_type "behavior"
                          trace (decay behavior_hl trace)])
          traces (items (Location.behavior_traces location)) in
  traces.

Definition state_affordance (location : Location.t) (now : Q)
    (aff : AffordanceConfig.t) : AffordanceInfo.t :=
  let cooldown_key := AffordanceConfig.affordance_type aff in
  let cooldown_remaining :=
    match get (Location.cooldowns location) cooldown_key with
    | Some until => Some (py_max0 (until - now))
    | None => None
    end in
  AffordanceInfo.mk
    (AffordanceConfig.affordance_type aff)
    (AffordanceConfig.enabled aff
       && is_affordance_enabled (AffordanceConfig.affordance_type aff))
    (AffordanceConfig.mechanical_handle aff)
    (AffordanceConfig.severity_clamp_hostile aff)
    (AffordanceConfig.severity_clamp_favorable aff)
    (AffordanceConfig.cooldown_seconds aff)
    cooldown_remaining
    (AffordanceConfig.tells_hostile aff)
    (AffordanceConfig.tells_favorable aff).

Definition get_location_state (a : Adapter.t) (query : LocationQuery.t)
    (now : Q) : option LocationState.t :=
  match get (Adapter._locations a) (LocationQuery.location_id query)
        ≫= Adapter.deref a with
  | None => None
  | Some location =>
      let traces :=
        if LocationQuery.include_traces query
        then state_traces query location now else [] in
      let affordances :=
        if LocationQuery.include_affordances query
        then foldl (λ affordances aff,
                      affordances ++ [state_affordance location now aff])
                   [] (Location.affordances location)
        else [] in
      Some (LocationState.mk
              (Location.location_id location)
              (Location.name location)
              (Location.description location)
              (Location.valuation_profile location)
              [("personal", Channels.personal (Location.saturation location));
               ("group", Channels.group (Location.saturation location));
               ("behavior", Channels.behavior (Location.saturation location))]
              traces affordances
              (Location.last_tick location))
  end.

(** *** compute_affinity_for_actor *)

Definition compute_affinity_for_actor (a : Adapter.t) (location_id : string)
    (actor_id : string) (actor_tags : list string) (now : Q)
    : option AffinityScore.t :=
  match get (Adapter._locations a) location_id ≫= Adapter.deref a with
  | None => None
  | Some location =>
      let personal :=
        score_personal (Location.personal_traces location) actor_id
          personal_hl (Location.valuation_profile location) now in
      let group :=
        score_group (Location.group_traces location) actor_tags
          group_hl (Location.valuation_profile location) now in
      let behavior :=
        score_behavior (Location.behavior_traces location)
          behavior_hl (Location.valuation_profile location) now in
      let weights := Config.channel_weights config in
      let total :=
        personal * Channels.personal weights
        + group * Channels.group weights
        + behavior * Channels.behavior weights in
      Some (AffinityScore.mk total personal group behavior
              (get_threshold_label total))
  end.

(** *** query_traces *)

(** One turn of the [for location in locations] loop. *)
Definition scan_location (query : TraceQuery.t) (now : Q)
    (results : list TraceInfo.t) (location : Location.t) : list TraceInfo.t :=
  let results :=
    if channel_selected (TraceQuery.channel query) "personal" then
      foldl (λ results '((actor_id, event_type), trace),
               if filter_rejects (TraceQuery.actor_id query) actor_id
               then results
               else if filter_rejects (TraceQuery.event_type query) event_type
               then results
               else
                 let decayed := get_decayed_value trace personal_hl now in
                 if Qltb decayed (TraceQuery.min_intensity query) then results
                 else results ++ [mk_trace_info (pair_key actor_id event_type)
                                    "personal" trace decayed])
            results (items (Location.personal_traces location))
    else results in
  let results :=
    if channel_selected (TraceQuery.channel query) "group" then
      foldl (λ results '((actor_tag, event_type), trace),
               if filter_rejects (TraceQuery.event_type query) event_type
               then results
               else
                 let decayed := get_decayed_value trace group_hl now in
                 if Qltb decayed (TraceQuery.min_intensity query) then results
                 else results ++ [mk_trace_info (pair_key actor_tag event_type)
                                    "group" trace decayed])
            results (items (Location.group_traces location))
    else results in
  let results :=
    if channel_selected (TraceQuery.channel query) "behavior" then
      foldl (λ results '(event_type, trace),
               if filter_rejects (TraceQuery.event_type query) event_type
               then results
               else
                 let decayed := get_decayed_value trace behavior_hl now in
                 if Qltb decayed (TraceQuery.min_intensity query) then results
                 else results ++ [mk_trace_info event_type
                                    "behavior" trace decayed])
            results (items (Location.behavior_traces location))
    else results in
  results.

(** [[self._locations[query.location_id]] if query.location_id else
    self._locations.values()]; subscripting raises [KeyError] on a missing
    key. *)
Definition scanned_locations (a : Adapter.t) (query : TraceQuery.t)
    : result (list ref) :=
  match TraceQuery.location_id query with
  | Some location_id =>
      if str_truthy (Some location_id) then
        match get (Adapter._locations a) location_id with
        | Some r => Ok [r]
        | None => Raise (KeyError location_id)
        end
      else Ok (values (Adapter._locations a))
  | None => Ok (values (Adapter._locations a))
  end.

(** The list [results] when the loops are over, before it is sorted. *)
Definition collect_traces (a : Adapter.t) (query : TraceQuery.t) (now : Q)
    (locations : list ref) : list TraceInfo.t :=
  foldl (λ results r,
           match Adapter.deref a r with
           | Some location => scan_location query now results location
           | None => results
           end)
        [] locations.

Definition query_traces (a : Adapter.t) (query : TraceQuery.t) (now : Q)
    : result (list TraceInfo.t) :=
  match scanned_locations a query with
  | Raise e => Raise e
  | Ok locations =>
      let results := collect_traces a query now locations in
      let results := sort_desc TraceInfo.decayed_value results in
      Ok (slice_to results (TraceQuery.limit query))
  end.

(** *** predict_action_consequence *)

(** The two loops over [location.affordances] that fill [triggered] and
    [narrative_hints] from the label of [affinity_after]. *)
Definition derive_triggers (affinity_after : option AffinityScore.t)
    (affordances : list AffordanceConfig.t) : list string * list string :=
  let triggered := [] in
  let narrative_hints := [] in
  match affinity_after with
  | None => (triggered, narrative_hints)
  | Some affinity_after =>
      let label := AffinityScore.threshold_label affinity_after in
      if bool_decide (label ∈ ["hostile"; "wary"]) then
        foldl (λ '(triggered, narrative_hints) aff,
                 if AffordanceConfig.enabled aff then
                   let triggered :=
                     triggered ++ [AffordanceConfig.affordance_type aff] in
                   match AffordanceConfig.tells_hostile aff with
                   | tell :: _ => (triggered, narrative_hints ++ [tell])
                   | [] => (triggered, narrative_hints)
                   end
                 else (triggered, narrative_hints))
              (triggered, narrative_hints) affordances
      else if bool_decide (label ∈ ["warm"; "favorable"]) then
        foldl (λ '(triggered, narrative_hints) aff,
                 if AffordanceConfig.enabled aff then
                   match AffordanceConfig.tells_favorable aff with
                   | tell :: _ => (triggered, narrative_hints ++ [tell])
                   | [] => (triggered, narrative_hints)
                   end
                 else (triggered, narrative_hints))
              (triggered, narrative_hints) affordances
      else (triggered, narrative_hints)
  end.

(** The three clock readings are those of the first
    [compute_affinity_for_actor], of [log_event] and of the second
    [compute_affinity_for_actor].  The function returns its result and the
    adapter state it leaves behind. *)
Definition predict_action_consequence (a : Adapter.t)
    (prediction : ActionPrediction.t) (t_before t_log t_after : Q)
    : option ActionConsequence.t * Adapter.t :=
  let location_id := ActionPrediction.location_id prediction in
  match get (Adapter._locations a) location_id with
  | None => (None, a)
  | Some location =>
      let actor_tags := remove_dups (ActionPrediction.actor_tags prediction) in
      let affinity_before :=
        compute_affinity_for_actor a location_id
          (ActionPrediction.actor_id prediction) actor_tags t_before in
      let event :=
        AffinityEvent.mk
          (ActionPrediction.event_type prediction)
          (ActionPrediction.actor_id prediction)
          actor_tags location_id
          (ActionPrediction.intensity prediction) in
      match Adapter.deepcopy a location with
      | None => (None, a)        (* no object behind the reference *)
      | Some (temp_location, a) =>
          let a := Adapter.mutate a temp_location
                     (λ l, log_event l event t_log) in
          let original := get (Adapter._locations a) location_id in
          let a := Adapter.set_location a location_id temp_location in
          let affinity_after :=
            compute_affinity_for_actor a location_id
              (ActionPrediction.actor_id prediction) actor_tags t_after in
          let a :=
            match original with
            | Some original => Adapter.set_location a location_id original
            | None => a
            end in
          let '(triggered, narrative_hints) :=
            derive_triggers affinity_after
              (from_option Location.affordances [] (Adapter.deref a location)) in
          (Some (ActionConsequence.mk
                   location_id
                   (ActionPrediction.actor_id prediction)
                   (ActionPrediction.event_type prediction)
                   affinity_before affinity_after
                   triggered narrative_hints),
           a)
      end
  end.

(** *** get_world_history_summary *)

(** [now - (time_window_days * 86400)]: the product is an [int], which the
    subtraction converts to a float. *)
Definition history_cutoff (now : Q) (time_window_days : Z) : result float :=
  match float_of_int (time_window_days * 86400) with
  | Raise e => Raise e
  | Ok window => Ok (fsub now window)
  end.

(** The loop over [location.personal_traces.items()]: the pair
    [(dominant_events, notable_actors)] it builds, the set as the list of
    its members in the order in which they were added. *)
Definition scan_personal (cutoff : float)
    (personal_traces : dict (string * string) TraceRecord.t)
    : list DominantEvent.t * list string :=
  foldl (λ '(dominant_events, notable_actors) '((actor_id, event_type), trace),
           if fgeb (Finite (TraceRecord.last_updated trace)) cutoff then
             (dominant_events ++
                [DominantEvent.mk event_type actor_id
                   (TraceRecord.accumulated trace)
                   (TraceRecord.event_count trace)],
              set_add actor_id notable_actors)
           else (dominant_events, notable_actors))
        ([], []) (items personal_traces).

(** The loop over [location.behavior_traces.items()]: [behavior_summary]. *)
Definition scan_behavior (cutoff : float)
    (behavior_traces : dict string TraceRecord.t) : dict string float :=
  foldl (λ behavior_summary '(event_type, trace),
           if fgeb (Finite (TraceRecord.last_updated trace)) cutoff then
             let category := split_dot_head event_type in
             set behavior_summary category
               (fadd (default (Finite 0) (get behavior_summary category))
                  (TraceRecord.accumulated trace))
           else behavior_summary)
        [] (items behavior_traces).

Definition determine_mood (harm offer create : float) : string :=
  if fgtb harm (literal 0.5) then
    if fltb harm (literal 1.0) then "troubled" else "violent"
  else if fgtb offer (literal 0.3) || fgtb create (literal 0.3) then
    if fgtb offer (literal 0.5) then "sacred" else "peaceful"
  else "peaceful".

Definition generate_folklore_seeds (location : Location.t)
    (harm offer create : float) : list string :=
  let folklore_seeds := [] in
  let valuation := Location.valuation_profile location in
  let folklore_seeds :=
    if fgtb harm (Finite 0) && Qltb (default 0 (get valuation "harm")) 0
    then folklore_seeds ++
           ["The " +:+ lower (Location.name location)
            +:+ " remembers those who brought harm"]
    else folklore_seeds in
  let folklore_seeds :=
    if Qltb (default 0 (get valuation "harm.fire")) (-0.5)
    then folklore_seeds ++ ["Fire is forbidden in these parts"]
    else folklore_seeds in
  let folklore_seeds :=
    if fgtb offer (Finite 0)
    then folklore_seeds ++ ["Travelers who leave offerings find easier paths"]
    else folklore_seeds in
  let folklore_seeds :=
    if fgtb create (Finite 0)
    then folklore_seeds ++ ["Those who plant and tend are welcomed"]
    else folklore_seeds in
  folklore_seeds.

Definition get_world_history_summary (a : Adapter.t) (location_id : string)
    (time_window_days : Z) (now : Q) : result (option WorldHistorySummary.t) :=
  match get (Adapter._locations a) location_id ≫= Adapter.deref a with
  | None => Ok None
  | Some location =>
      match history_cutoff now time_window_days with
      | Raise e => Raise e
      | Ok cutoff =>
          let '(dominant_events, notable_actors) :=
            scan_personal cutoff (Location.personal_traces location) in
          let behavior_summary :=
            scan_behavior cutoff (Location.behavior_traces location) in
          let harm := default (Finite 0) (get behavior_summary "harm") in
          let offer := default (Finite 0) (get behavior_summary "offer") in
          let create := default (Finite 0) (get behavior_summary "create") in
          let mood := determine_mood harm offer create in
          let folklore_seeds :=
            generate_folklore_seeds location harm offer create in
          let dominant_events :=
            sort_desc DominantEvent.intensity dominant_events in
          Ok (Some (WorldHistorySummary.mk location_id time_window_days
                      (take 10 dominant_events)
                      (take 10 (list_of_set notable_actors))
                      mood folklore_seeds))
      end
  end.

(** *** export_world_state *)

Definition export_entry (state : LocationState.t) : ExportEntry.t :=
  ExportEntry.mk
    (LocationState.location_id state)
    (LocationState.name state)
    (LocationState.description state)
    (LocationState.valuation_profile state)
    (LocationState.saturation state)
    (fmap (λ t, ExportTrace.mk (TraceInfo.key t) (TraceInfo.channel t)
                 (TraceInfo.accumulated t) (TraceInfo.decayed_value t)
                 (TraceInfo.event_count t) (TraceInfo.is_scar t))
         (LocationState.traces state))
    (fmap (λ i, ExportAffordance.mk (AffordanceInfo.affordance_type i)
                 (AffordanceInfo.enabled i) (AffordanceInfo.mechanical_handle i))
         (LocationState.affordances state)).

(** The clock is read once per location by [get_location_state]; the model
    gives every iteration the same reading. *)
Definition export_world_state (a : Adapter.t) (now : Q)
    : dict string ExportEntry.t :=
  foldl (λ export '(loc_id, _),
           match get_location_state a (LocationQuery.of_id loc_id) now with
           | Some state => set export loc_id (export_entry state)
           | None => export
           end)
        [] (items (Adapter._locations a)).

(* ===================================================================== *)
(** ** The tool layer ([src/mcp/tools.py], [src/aws/lambda_handler.py]) *)
(* ===================================================================== *)

(** A reply is the error dictionary. *)
Definition is_error {A} (reply : tool_reply A) : Prop :=
  match reply with
  | ToolError _ => True
  | ToolOk _ => False
  end.

Definition not_found (location_id : string) : string :=
  "Location '" +:+ location_id +:+ "' not found".

(** [if result is None: return {"error": ...}; return to_dict(result)] *)
Definition render {A} (location_id : string) (result : option A)
    : tool_reply A :=
  match result with
  | None => ToolError (not_found location_id)
  | Some r => ToolOk r
  end.

Definition tool_get_location_state (a : Adapter.t) (location_id : string)
    (include_traces include_affordances : bool) (now : Q)
    : tool_reply LocationState.t :=
  let query :=
    LocationQuery.mk location_id include_traces include_affordances true in
  render location_id (get_location_state a query now).

Definition tool_compute_affinity (a : Adapter.t) (location_id actor_id : string)
    (actor_tags : list string) (now : Q) : tool_reply AffinityScore.t :=
  render location_id
    (compute_affinity_for_actor a location_id actor_id
       (remove_dups actor_tags) now).

Definition tool_predict_action (a : Adapter.t) (actor_id : string)
    (actor_tags : list string) (location_id event_type : string)
    (intensity : Q) (t_before t_log t_after : Q)
    : tool_reply ActionConsequence.t * Adapter.t :=
  let prediction :=
    ActionPrediction.mk actor_id actor_tags location_id event_type intensity in
  let '(result, a) :=
    predict_action_consequence a prediction t_before t_log t_after in
  (render location_id result, a).

(** An exception of the adapter is not caught by the tool. *)
Definition tool_get_world_history (a : Adapter.t) (location_id : string)
    (time_window_days : Z) (now : Q)
    : result (tool_reply WorldHistorySummary.t) :=
  match get_world_history_summary a location_id time_window_days now with
  | Raise e => Raise e
  | Ok result => Ok (render location_id result)
  end.

(** [DecayChannel(channel)]; [None] stands for the [ValueError]. *)
Definition DecayChannel_of_value (s : string) : option DecayChannel :=
  if String.eqb s "personal" then Some PERSONAL
  else if String.eqb s "group" then Some GROUP
  else if String.eqb s "behavior" then Some BEHAVIOR
  else None.

(** The [query_traces] tool.  An exception of the adapter is not caught
    here and propagates to the caller. *)
Definition tool_query_traces (a : Adapter.t)
    (location_id actor_id event_type channel : option string)
    (min_intensity : Q) (limit : Z) (now : Q)
    : result (list (tool_reply TraceInfo.t)) :=
  let run channel_enum :=
    let query :=
      TraceQuery.mk location_id actor_id event_type channel_enum
        min_intensity limit in
    match query_traces a query now with
    | Raise e => Raise e
    | Ok results => Ok (ToolOk <$> results)
    end in
  match channel with
  | Some c =>
      if str_truthy (Some c) then
        match DecayChannel_of_value c with
        | Some channel_enum => run (Some channel_enum)
        | None =>
            Ok [ToolError ("Invalid channel '" +:+ c
                           +:+ "'. Use: personal, group, behavior")]
        end
      else run None
  | None => run None
  end.

(** The [explain_valuation] tool.  [k in profile] followed by [profile[k]]
    is one lookup. *)
Definition explain_valuation (a : Adapter.t) (location_id event_type : string)
    : tool_reply Valuation.t :=
  match get_location a location_id ≫= Adapter.deref a with
  | None => ToolError (not_found location_id)
  | Some location =>
      let profile := Location.valuation_profile location in
      match get profile event_type with
      | Some weight =>
          ToolOk (Valuation.mk event_type weight "exact" None
                    (Some ("Location has explicit valuation for '"
                           +:+ event_type +:+ "'")))
      | None =>
          let category := split_dot_head event_type in
          match get profile category with
          | Some weight =>
              ToolOk (Valuation.mk event_type weight "category" (Some category)
                        (Some ("No exact match; using category '"
                               +:+ category +:+ "' valuation")))
          | None =>
              ToolOk (Valuation.mk event_type 0.0 "default" None
                        (Some "No valuation found; neutral (0.0) applied"))
          end
      end
  end.

(** The [explain_valuation] branch of [_handle_tool_call]: the same
    resolution, without the explanation text. *)
Definition handle_explain_valuation (a : Adapter.t)
    (location_id event_type : string) : tool_reply Valuation.t :=
  match get_location a location_id ≫= Adapter.deref a with
  | None => ToolError ("Location not found: " +:+ location_id)
  | Some location =>
      let profile := Location.valuation_profile location in
      match get profile event_type with
      | Some weight => ToolOk (Valuation.mk event_type weight "exact" None None)
      | None =>
          let category := split_dot_head event_type in
          match get profile category with
          | Some weight =>
              ToolOk (Valuation.mk event_type weight "category"
                        (Some category) None)
          | None => ToolOk (Valuation.mk event_type 0.0 "default" None None)
          end
      end
  end.

End Engine.

(* ===================================================================== *)
(** ** Declarative readings of the loops *)
(* ===================================================================== *)

(** The tell an affordance surfaces: the first of its list, if any. *)
Definition first_tell (tells : list string) : list string := take 1 tells.

(** [x] comes no later than [y] in descending order of [key]. *)
Definition desc {A} (key : A → Q) (x y : A) : Prop := key y <= key x.

(** The order of floats, as relations. *)
Definition float_lt (x y : float) : Prop := fltb x y = true.
Definition float_le (x y : float) : Prop := fleb x y = true.

(** The object a location id leads to. *)
Definition resolve (a : Adapter.t) (location_id : string) : option Location.t :=
  get (Adapter._locations a) location_id ≫= Adapter.deref a.

(** Two adapter states agree when they hold the same dictionary and every
    object of the first is unchanged in the second. *)
Definition agree (a a' : Adapter.t) : Prop :=
  Adapter._locations a' = Adapter._locations a
  ∧ ∀ r, (r < length (Adapter.heap a))%nat →
         Adapter.deref a' r = Adapter.deref a r.

Section Readings.
Context `{WorldAffinity}.

(** A trace with the actor of its key (personal traces only), its event
    type and the [TraceInfo] a query builds for it. *)
Definition personal_entry (now : Q) (kt : string * string * TraceRecord.t)
    : option string * string * TraceInfo.t :=
  let '((actor_id, event_type), trace) := kt in
  (Some actor_id, event_type,
   mk_trace_info (pair_key actor_id event_type) "personal" trace
     (get_decayed_value trace personal_hl now)).

Definition group_entry (now : Q) (kt : string * string * TraceRecord.t)
    : option string * string * TraceInfo.t :=
  let '((actor_tag, event_type), trace) := kt in
  (None, event_type,
   mk_trace_info (pair_key actor_tag event_type) "group" trace
     (get_decayed_value trace group_hl now)).

Definition behavior_entry (now : Q) (kt : string * TraceRecord.t)
    : option string * string * TraceInfo.t :=
  let '(event_type, trace) := kt in
  (None, event_type,
   mk_trace_info event_type "behavior" trace
     (get_decayed_value trace behavior_hl now)).

(** Every trace of a location, in the order the three loops visit them. *)
Definition all_traces (location : Location.t) (now : Q)
    : list (option string * string * TraceInfo.t) :=
  (personal_entry now <$> Location.personal_traces location)
  ++ (group_entry now <$> Location.group_traces location)
  ++ (behavior_entry now <$> Location.behavior_traces location).

(** A trace matches a query when its channel is selected, the actor filter
    (personal traces only) and the event-type filter accept it, and its
    decayed value is at least [min_intensity]. *)
Definition trace_matches (query : TraceQuery.t)
    (x : option string * string * TraceInfo.t) : bool :=
  let '(actor, event_type, info) := x in
  channel_selected (TraceQuery.channel query) (TraceInfo.channel info)
  && match actor with
     | Some actor_id => negb (filter_rejects (TraceQuery.actor_id query) actor_id)
     | None => true
     end
  && negb (filter_rejects (TraceQuery.event_type query) event_type)
  && Qle_bool (TraceQuery.min_intensity query) (TraceInfo.decayed_value info).

(** All matching traces of the scanned locations. *)
Definition candidates (a : Adapter.t) (query : TraceQuery.t) (now : Q)
    (locations : list ref) : list TraceInfo.t :=
  omap (Adapter.deref a) locations
  ≫= λ location, snd <$> filter (λ x, trace_matches query x = true)
                           (all_traces location now).

(** A trace lies in the window of a history summary: its [last_updated]
    is at least the cutoff. *)
Definition in_window (cutoff : float) (trace : TraceRecord.t) : bool :=
  fleb cutoff (Finite (TraceRecord.last_updated trace)).

(** The total of the in-window behavior traces of one category: their
    accumulated values added up as floats, in the order of the map. *)
Definition category_total (cutoff : float)
    (behavior_traces : dict string TraceRecord.t) (category : string) : float :=
  foldl fadd (Finite 0)
    (fmap (λ kt, TraceRecord.accumulated kt.2)
       (filter (λ kt, in_window cutoff kt.2 = true
                      ∧ split_dot_head kt.1 = category)
          behavior_traces)).

End Readings.

(** The mood table in the words of the specification. *)
Definition mood_table (harm offer create : float) : string :=
  if fgtb harm (literal 0.5) then
    if fgeb harm (literal 1.0) then "violent" else "troubled"
  else if fgtb offer (literal 0.3) || fgtb create (literal 0.3) then
    if fgtb offer (literal 0.5) then "sacred" else "peaceful"
  else "peaceful".

(* ===================================================================== *)
(** ** A concrete [world.affinity] and a small world *)
(* ===================================================================== *)

(** A stand-in for [world.affinity] on which the adapter can be evaluated:
    decay by whole half-lives, the three-tier valuation weight, channel
    scores as weighted sums, and an event logger that adds the intensity to
    the personal, group and behavior records of the event.  The label
    thresholds and the registry are those of the examples, not of the
    game. *)
Module Fixture.

Definition valuation_weight (profile : dict string Q) (event_type : string) : Q :=
  match get profile event_type with
  | Some w => w
  | None => default 0 (get profile (split_dot_head event_type))
  end.

Definition decayed (trace : TraceRecord.t) (half_life now : Q) : Q :=
  if TraceRecord.is_scar trace then TraceRecord.accumulated trace
  else TraceRecord.accumulated trace
       * Qpower (1 # 2)
           (Qfloor ((now - TraceRecord.last_updated trace) / half_life)).

Definition score {K} (keep : K → bool) (event_of : K → string)
    (traces : dict K TraceRecord.t) (half_life : Q) (profile : dict string Q)
    (now : Q) : Q :=
  foldr Qplus 0
    (fmap (λ kt, decayed kt.2 half_life now
                * valuation_weight profile (event_of kt.1))
       (filter (λ kt, keep kt.1 = true) traces)).

Definition label (total : Q) : string :=
  if Qltb total (-0.5) then "hostile"
  else if Qltb total (-0.2) then "wary"
  else if Qgtb total 0.5 then "favorable"
  else if Qgtb total 0.2 then "warm"
  else "neutral".

Definition bump {K} `{EqDecision K} (traces : dict K TraceRecord.t) (k : K)
    (intensity now : Q) : dict K TraceRecord.t :=
  match get traces k with
  | Some t =>
      set traces k
        (TraceRecord.mk (TraceRecord.accumulated t + intensity) now
           (TraceRecord.event_count t + 1) (TraceRecord.is_scar t))
  | None => set traces k (TraceRecord.mk intensity now 1 false)
  end.

Definition log (location : Location.t) (event : AffinityEvent.t) (now : Q)
    : Location.t :=
  let e := AffinityEvent.event_type event in
  let i := AffinityEvent.intensity event in
  Location.mk
    (Location.location_id location) (Location.name location)
    (Location.description location) (Location.valuation_profile location)
    (Location.affordances location)
    (bump (Location.personal_traces location)
       (AffinityEvent.actor_id event, e) i now)
    (foldl (λ g tag, bump g (tag, e) i now)
       (Location.group_traces location) (AffinityEvent.actor_tags event))
    (bump (Location.behavior_traces location) e i now)
    (Location.saturation location) (Location.cooldowns location)
    (Location.last_tick location).

Definition affinity (registry : dict string bool) : WorldAffinity := {|
  config := Config.mk (Channels.mk 30 90 7) (Channels.mk 0.5 0.3 0.2);
  get_decayed_value := decayed;
  score_personal traces actor_id :=
    score (λ k, bool_decide (k.1 = actor_id)) snd traces;
  score_group traces actor_tags :=
    score (λ k, bool_decide (k.1 ∈ actor_tags)) snd traces;
  score_behavior := score (λ _, true) id;
  get_threshold_label := label;
  log_event := log;
  is_affordance_enabled type := default true (get registry type);
  list_of_set := reverse;
  list_of_set_perm := reverse_Permutation |}.

(** Clock readings are in seconds; [day n] is the start of day [n]. *)
Definition day (n : Z) : Q := inject_Z (n * 86400).

Definition pathing : AffordanceConfig.t :=
  AffordanceConfig.mk "pathing" true (Some "path_cost") 0.5 (-0.3) 3600
    ["the woods creak"] ["the woods hum"].

Definition ambient : AffordanceConfig.t :=
  AffordanceConfig.mk "ambient_messaging" false None 0.5 (-0.3) 3600
    ["a cold wind"] ["warm light"].

Definition whispering_woods : Location.t :=
  Location.mk "whispering_woods" "Whispering Woods" "An old forest."
    [("harm", -0.3); ("harm.fire", -0.8); ("offer", 0.4)]
    [pathing; ambient]
    [(("alice", "harm.fire"), TraceRecord.mk 0.9 (day 100) 3 false);
     (("bob", "offer.gift"), TraceRecord.mk 0.4 (day 100) 1 false);
     (("carol", "harm.sword"), TraceRecord.mk 0.1 (day 10) 1 false)]
    [(("elf", "offer.gift"), TraceRecord.mk 0.6 (day 100) 2 false)]
    [("harm.fire", TraceRecord.mk 0.9 (day 100) 3 false);
     ("harm.sword", TraceRecord.mk 0.3 (day 100) 1 false);
     ("offer.gift", TraceRecord.mk 0.6 (day 100) 2 false)]
    (Channels.mk 0 0 0)
    [("pathing", day 100 + 600)]
    (day 100).

Definition quiet_glade : Location.t :=
  Location.mk "quiet_glade" "Quiet Glade" "" [("offer", 0.9)] [pathing]
    [(("bob", "offer.gift"), TraceRecord.mk 2 (day 100) 4 true)]
    [] [("offer.gift", TraceRecord.mk 0.35 (day 100) 1 false)]
    (Channels.mk 0 0 0) [] (day 100).

(** The adapter after loading the two locations. *)
Definition world : Adapter.t :=
  Adapter.load (Adapter.load Adapter.init whispering_woods) quiet_glade.

(** The double nearest to one tenth: the value of the literal [0.1]. *)
Definition tenth : Q := 3602879701896397 # 36028797018963968.

(** A location with ten behavior traces of the category harm, each of
    [0.1], and the adapter that holds it. *)
Definition ember_field : Location.t :=
  Location.mk "ember_field" "Ember Field" "" [("harm", -0.3)] [] [] []
    ((λ kind, ("harm." +:+ kind, TraceRecord.mk tenth (day 100) 1 false))
       <$> ["a"; "b"; "c"; "d"; "e"; "f"; "g"; "h"; "i"; "j"])
    (Channels.mk 0 0 0) [] (day 100).

Definition embers : Adapter.t := Adapter.load Adapter.init ember_field.

(** The registry of the examples: every affordance type enabled. *)
Definition open_registry : dict string bool := [].
(** A registry in which an administrator has switched [pathing] off. *)
Definition pathing_off : dict string bool := [("pathing", false)].

End Fixture.

From Stdlib Require Import Lqa Qpower.

(* ===================================================================== *)
(** ** Loading locations ([_parse_location_yaml], [_load_yaml_locations]) *)
(* ===================================================================== *)

(** The mappings [yaml.safe_load] returns for a location file.  A key that
    may be left out is an optional field.  Under the keys whose value the
    parser itself reads ([affordances], [severity_clamp], [tells]) a file
    may also hold nothing, YAML's null, on which the parser raises; the
    other values are handed unchecked to [Location] and [AffordanceConfig]
    and have the types these declare. *)
Inductive entry (A : Type) :=
| Missing
| Null
| Value (a : A).
Global Arguments Missing {A}.
Global Arguments Null {A}.
Global Arguments Value {A} a.

(** [d.get(k, default)]: [None] stands for the object [None]. *)
Definition get_or {A} (e : entry A) (default : A) : option A :=
  match e with
  | Missing => Some default
  | Null => None
  | Value a => Some a
  end.

Module SeverityYaml.
Record t := mk { hostile : option Q; favorable : option Q }.
End SeverityYaml.

Module TellsYaml.
Record t := mk {
  hostile : option (list string);
  favorable : option (list string) }.
End TellsYaml.

Module AffordanceYaml.
Record t := mk {
  type : option string;
  enabled : option bool;
  mechanical_handle : option string;
  severity_clamp : entry SeverityYaml.t;
  cooldown_seconds : option Z;
  tells : entry TellsYaml.t }.
End AffordanceYaml.

Module LocationYaml.
Record t := mk {
  location_id : option string;
  name : option string;
  description : option string;
  valuation_profile : option (dict string Q);
  affordances : entry (list AffordanceYaml.t) }.
End LocationYaml.

(** What reading one file gives: the message of the exception raised by
    [open] or [yaml.safe_load], or [None] for a file without content, or a
    mapping. *)
Inductive yaml_file :=
| Unreadable (e : string)
| EmptyDocument
| Document (data : LocationYaml.t).

(** [str(e)] *)
Definition str_exn (e : exn) : string :=
  match e with
  | KeyError k => "'" +:+ k +:+ "'"
  | OverflowError => "int too large to convert to float"
  | TypeError => "'NoneType' object is not iterable"
  | AttributeError => "'NoneType' object has no attribute 'get'"
  end.

Section Loading.

(** The values the [Location] dataclass gives the fields the parser does
    not pass (trace maps, saturation, cooldowns, last tick); the dataclass
    is declared in [world.affinity.core]. *)
Variable blank : Location.t.

(** The body of the loop over [data.get("affordances", [])].  The keyword
    arguments of [AffordanceConfig] are evaluated in order: [aff_data["type"]]
    first, then [severity.get] and [tells.get]. *)
Definition parse_affordance (aff_data : AffordanceYaml.t)
    : result AffordanceConfig.t :=
  let severity :=
    get_or (AffordanceYaml.severity_clamp aff_data) (SeverityYaml.mk None None) in
  let tells :=
    get_or (AffordanceYaml.tells aff_data) (TellsYaml.mk None None) in
  match AffordanceYaml.type aff_data with
  | None => Raise (KeyError "type")
  | Some type =>
      match severity with
      | None => Raise AttributeError
      | Some severity =>
          match tells with
          | None => Raise AttributeError
          | Some tells =>
              Ok (AffordanceConfig.mk type
                    (default true (AffordanceYaml.enabled aff_data))
                    (AffordanceYaml.mechanical_handle aff_data)
                    (default 0.5 (SeverityYaml.hostile severity))
                    (default (-0.3) (SeverityYaml.favorable severity))
                    (default 3600%Z (AffordanceYaml.cooldown_seconds aff_data))
                    (default [] (TellsYaml.hostile tells))
                    (default [] (TellsYaml.favorable tells)))
          end
      end
  end.

Definition _parse_location_yaml (data : LocationYaml.t) : result Location.t :=
  match get_or (LocationYaml.affordances data) [] with
  | None => Raise TypeError
  | Some listed =>
  let affordances :=
    foldl (λ affordances aff_data,
             match affordances with
             | Raise e => Raise e
             | Ok affordances =>
                 match parse_affordance aff_data with
                 | Raise e => Raise e
                 | Ok aff => Ok (affordances ++ [aff])
                 end
             end)
          (Ok []) listed in
  match affordances with
  | Raise e => Raise e
  | Ok affordances =>
      match LocationYaml.location_id data with
      | None => Raise (KeyError "location_id")
      | Some location_id =>
          match LocationYaml.name data with
          | None => Raise (KeyError "name")
          | Some name =>
              Ok (Location.mk location_id name
                    (default "" (LocationYaml.description data))
                    (default [] (LocationYaml.valuation_profile data))
                    affordances
                    (Location.personal_traces blank)
                    (Location.group_traces blank)
                    (Location.behavior_traces blank)
                    (Location.saturation blank)
                    (Location.cooldowns blank)
                    (Location.last_tick blank))
          end
      end
  end
  end.

(** [print(f"Warning: Failed to load {yaml_file}: {e}")] *)
Definition load_warning (path e : string) : string :=
  "Warning: Failed to load " +:+ path +:+ ": " +:+ e.

(** The loop over the files of [world/locations/], in the order [glob]
    yields them; returns the adapter and the lines printed.  For a file
    without content [data] is [None] and [data.get] raises. *)
Definition _load_yaml_locations (a : Adapter.t)
    (files : list (string * yaml_file)) : Adapter.t * list string :=
  foldl (λ '(a, printed) '(path, content),
           match content with
           | Unreadable e => (a, printed ++ [load_warning path e])
           | EmptyDocument =>
               (a, printed ++ [load_warning path (str_exn AttributeError)])
           | Document data =>
               match _parse_location_yaml data with
               | Ok location => (Adapter.load a location, printed)
               | Raise e => (a, printed ++ [load_warning path (str_exn e)])
               end
           end)
        (a, []) files.

(** [EvenflowAdapter.__init__]: with a database URL the adapter starts
    empty ([_init_database] is a placeholder), otherwise it loads the
    location files. *)
Definition EvenflowAdapter (db_url : option string)
    (files : list (string * yaml_file)) : Adapter.t * list string :=
  if str_truthy db_url then (Adapter.init, [])
  else _load_yaml_locations Adapter.init files.

End Loading.

(* ===================================================================== *)
(** ** The Lambda entry point ([src/aws/lambda_handler.py]) and the
       resources ([src/mcp/resources.py]) *)
(* ===================================================================== *)

(** [s.replace(old, new)] for a non-empty [old]: the occurrences of [old]
    are replaced from left to right, without overlap.  [skip] counts the
    characters of an occurrence still to be passed over. *)
Fixpoint replace_from (old new : string) (skip : nat) (s : string) : string :=
  match s with
  | EmptyString => EmptyString
  | String c s' =>
      match skip with
      | S skip => replace_from old new skip s'
      | O =>
          if String.prefix old s
          then new +:+ replace_from old new (String.length old - 1) s'
          else String c (replace_from old new 0 s')
      end
  end.

Definition str_replace (old new s : string) : string := replace_from old new 0 s.

(** The double-quote character, as a string. *)
Definition dquote : string := String (Ascii.ascii_of_nat 34) EmptyString.

(** The [arguments] object of a tool call; every key may be missing. *)
Module ToolArguments.
Record t := mk {
  location_id : option string;
  include_traces : option bool;
  include_affordances : option bool;
  actor_id : option string;
  actor_tags : option (list string);
  event_type : option string;
  channel : option string;
  min_intensity : option Q;
  limit : option Z;
  intensity : option Q;
  time_window_days : option Z }.
Definition empty : t :=
  mk None None None None None None None None None None None.
End ToolArguments.

(** The [params] object of a request. *)
Module Params.
Record t := mk {
  name : option string;
  arguments : option ToolArguments.t;
  uri : option string }.
Definition empty : t := mk None None None.
End Params.

(** The exceptions a tool call can raise inside the handler. *)
Inductive lambda_exn :=
| LKeyError (k : string)        (* a missing argument, or the adapter's *)
| LValueError (value : string)  (* [DecayChannel(value)] *)
| LOverflowError                (* the adapter's *)
| LTypeError
| LAttributeError.

(** An exception of the adapter, inside the handler. *)
Definition of_exn (e : exn) : lambda_exn :=
  match e with
  | KeyError k => LKeyError k
  | OverflowError => LOverflowError
  | TypeError => LTypeError
  | AttributeError => LAttributeError
  end.

Inductive lambda_result (A : Type) :=
| LOk (a : A)
| LRaise (e : lambda_exn).
Global Arguments LOk {A} a.
Global Arguments LRaise {A} e.

(** [arguments[k]] *)
Definition require {A} (k : string) (o : option A) : lambda_result A :=
  match o with
  | Some x => LOk x
  | None => LRaise (LKeyError k)
  end.

(** What [json.dumps] is applied to in the replies. *)
Inductive payload :=
| PState (state : LocationState.t)
| PLocations (ids : list string)
| PAffinity (score : AffinityScore.t)
| PTraces (traces : list TraceInfo.t)
| PConsequence (consequence : ActionConsequence.t)
| PHistory (summary : WorldHistorySummary.t)
| PRegistry (registry : dict string bool)
| PExport (export : dict string ExportEntry.t)
| PValuation (v : Valuation.t)
| PConfig (half_lives_location channel_weights : Channels.t).

(** The text of a reply: the JSON rendering of a payload, or a literal. *)
Inductive reply_text :=
| Dumps (p : payload)
| Text (s : string).

(** [{"content": [{"type": "text", "text": ...}]}], with ["isError": True]
    when [isError] is set. *)
Module ToolResult.
Record t := mk { text : reply_text; isError : bool }.
End ToolResult.

(** [{"contents": [{"uri": ..., "mimeType": ..., "text": ...}]}] *)
Module ResourceContents.
Record t := mk { uri : string; mimeType : string; text : reply_text }.
End ResourceContents.

Inductive handler_result :=
| ToolCall (r : ToolResult.t)
| ResourceRead (r : ResourceContents.t)
| Initialize          (* the constant of [_handle_initialize] *)
| ListTools           (* the constant of [_handle_list_tools] *)
| ListResources.      (* the constant of [_handle_list_resources] *)

(** The message of an error response: a literal, or [str(e)]. *)
Inductive error_message :=
| Literal (s : string)
| StrOf (e : lambda_exn).

(** The value returned by [lambda_handler]: an error response, or the
    JSON-RPC response, wrapped for API Gateway when the event has a
    [requestContext]. *)
Inductive response :=
| ErrorResponse (statusCode : Z) (message : error_message)
| Response (id : Z) (result : handler_result) (gateway : bool).

(** The request body after [json.loads]. *)
Module Request.
Record t := mk {
  method : option string;
  params : option Params.t;
  id : option Z }.
End Request.

Inductive event_body :=
| InvalidJson
| Body (request : Request.t).

Section Lambda.
Context `{WorldAffinity}.

(** [admin_get_registry()] of [world.affinity.affordances]. *)
Variable admin_get_registry : dict string bool.

Definition get_affordance_registry (a : Adapter.t) : dict string bool :=
  admin_get_registry.

Definition text_reply (text : reply_text) : ToolResult.t :=
  ToolResult.mk text false.

Definition location_not_found (location_id : string) : ToolResult.t :=
  text_reply (Text ("Location not found: " +:+ location_id)).

(** [_handle_tool_call].  The clock readings are those of the adapter
    call; only a prediction takes the last two.  Returns the reply, or the
    exception that leaves the function, and the adapter state. *)
Definition _handle_tool_call (a : Adapter.t) (method : string)
    (params : Params.t) (now t_log t_after : Q)
    : lambda_result ToolResult.t * Adapter.t :=
  let tool_name :=
    default (str_replace "tools/call/" "" method) (Params.name params) in
  let arguments := default ToolArguments.empty (Params.arguments params) in
  if String.eqb tool_name "get_location_state" then
    match require "location_id" (ToolArguments.location_id arguments) with
    | LRaise e => (LRaise e, a)
    | LOk location_id =>
        let query :=
          LocationQuery.mk location_id
            (default true (ToolArguments.include_traces arguments))
            (default true (ToolArguments.include_affordances arguments))
            true in
        match get_location_state a query now with
        | None => (LOk (location_not_found location_id), a)
        | Some result => (LOk (text_reply (Dumps (PState result))), a)
        end
    end
  else if String.eqb tool_name "list_locations" then
    (LOk (text_reply (Dumps (PLocations (list_locations a)))), a)
  else if String.eqb tool_name "compute_affinity" then
    match require "location_id" (ToolArguments.location_id arguments) with
    | LRaise e => (LRaise e, a)
    | LOk location_id =>
        match require "actor_id" (ToolArguments.actor_id arguments) with
        | LRaise e => (LRaise e, a)
        | LOk actor_id =>
            let actor_tags :=
              remove_dups (default [] (ToolArguments.actor_tags arguments)) in
            match compute_affinity_for_actor a location_id actor_id
                    actor_tags now with
            | None => (LOk (location_not_found location_id), a)
            | Some result => (LOk (text_reply (Dumps (PAffinity result))), a)
            end
        end
    end
  else if String.eqb tool_name "query_traces" then
    let channel_enum :=
      match ToolArguments.channel arguments with
      | Some c =>
          if str_truthy (Some c) then
            match DecayChannel_of_value c with
            | Some channel => LOk (Some channel)
            | None => LRaise (LValueError c)
            end
          else LOk None
      | None => LOk None
      end in
    match channel_enum with
    | LRaise e => (LRaise e, a)
    | LOk channel_enum =>
        let query :=
          TraceQuery.mk
            (ToolArguments.location_id arguments)
            (ToolArguments.actor_id arguments)
            (ToolArguments.event_type arguments)
            channel_enum
            (default 0.0 (ToolArguments.min_intensity arguments))
            (default 100%Z (ToolArguments.limit arguments)) in
        match query_traces a query now with
        | Raise e => (LRaise (of_exn e), a)
        | Ok results => (LOk (text_reply (Dumps (PTraces results))), a)
        end
    end
  else if String.eqb tool_name "predict_action" then
    match require "actor_id" (ToolArguments.actor_id arguments) with
    | LRaise e => (LRaise e, a)
    | LOk actor_id =>
    match require "actor_tags" (ToolArguments.actor_tags arguments) with
    | LRaise e => (LRaise e, a)
    | LOk actor_tags =>
    match require "location_id" (ToolArguments.location_id arguments) with
    | LRaise e => (LRaise e, a)
    | LOk location_id =>
    match require "event_type" (ToolArguments.event_type arguments) with
    | LRaise e => (LRaise e, a)
    | LOk event_type =>
    match require "intensity" (ToolArguments.intensity arguments) with
    | LRaise e => (LRaise e, a)
    | LOk intensity =>
        let prediction :=
          ActionPrediction.mk actor_id actor_tags location_id event_type
            intensity in
        let '(result, a) :=
          predict_action_consequence a prediction now t_log t_after in
        match result with
        | None => (LOk (location_not_found location_id), a)
        | Some result => (LOk (text_reply (Dumps (PConsequence result))), a)
        end
    end end end end end
  else if String.eqb tool_name "get_world_history" then
    match require "location_id" (ToolArguments.location_id arguments) with
    | LRaise e => (LRaise e, a)
    | LOk location_id =>
        match get_world_history_summary a location_id
                (default 30%Z (ToolArguments.time_window_days arguments)) now
        with
        | Raise e => (LRaise (of_exn e), a)
        | Ok None => (LOk (location_not_found location_id), a)
        | Ok (Some result) => (LOk (text_reply (Dumps (PHistory result))), a)
        end
    end
  else if String.eqb tool_name "get_affordance_registry" then
    (LOk (text_reply (Dumps (PRegistry (get_affordance_registry a)))), a)
  else if String.eqb tool_name "export_world_state" then
    (LOk (text_reply (Dumps (PExport (export_world_state a now)))), a)
  else if String.eqb tool_name "explain_valuation" then
    match require "location_id" (ToolArguments.location_id arguments) with
    | LRaise e => (LRaise e, a)
    | LOk location_id =>
        match get_location a location_id ≫= Adapter.deref a with
        | None => (LOk (location_not_found location_id), a)
        | Some _ =>
            match require "event_type" (ToolArguments.event_type arguments) with
            | LRaise e => (LRaise e, a)
            | LOk event_type =>
                match handle_explain_valuation a location_id event_type with
                | ToolOk result =>
                    (LOk (text_reply (Dumps (PValuation result))), a)
                | ToolError msg => (LOk (text_reply (Text msg)), a)
                end
            end
        end
    end
  else
    (LOk (ToolResult.mk (Text ("Unknown tool: " +:+ tool_name)) true), a).

(** [_handle_resource_read] *)
Definition _handle_resource_read (a : Adapter.t) (params : Params.t) (now : Q)
    : ResourceContents.t :=
  let uri := default "" (Params.uri params) in
  if String.prefix "location://" uri then
    let location_id := str_replace "location://" "" uri in
    let query := LocationQuery.of_id location_id in
    match get_location_state a query now with
    | None => ResourceContents.mk uri "application/json" (Text "{}")
    | Some result =>
        ResourceContents.mk uri "application/json" (Dumps (PState result))
    end
  else if String.eqb uri "affordance://registry" then
    ResourceContents.mk uri "application/json"
      (Dumps (PRegistry (get_affordance_registry a)))
  else if String.eqb uri "world://state" then
    ResourceContents.mk uri "application/json"
      (Dumps (PExport (export_world_state a now)))
  else if String.eqb uri "config://affinity" then
    ResourceContents.mk uri "application/json"
      (Dumps (PConfig (Config.half_lives_location config)
                (Config.channel_weights config)))
  else
    ResourceContents.mk uri "text/plain" (Text ("Unknown resource: " +:+ uri)).

(** [lambda_handler], from the request body on.  [requestContext] tells
    whether the event has that key. *)
Definition lambda_handler (a : Adapter.t) (body : event_body)
    (requestContext : bool) (now t_log t_after : Q) : response * Adapter.t :=
  match body with
  | InvalidJson =>
      (ErrorResponse 400 (Literal "Invalid JSON in request body"), a)
  | Body body =>
      let method := default "" (Request.method body) in
      let params := default Params.empty (Request.params body) in
      let request_id := default 1%Z (Request.id body) in
      let respond result a := (Response request_id result requestContext, a) in
      if String.prefix "tools/" method then
        match _handle_tool_call a method params now t_log t_after with
        | (LRaise e, a) => (ErrorResponse 500 (StrOf e), a)
        | (LOk result, a) => respond (ToolCall result) a
        end
      else if String.prefix "resources/" method then
        respond (ResourceRead (_handle_resource_read a params now)) a
      else if String.eqb method "initialize" then respond Initialize a
      else if String.eqb method "tools/list" then respond ListTools a
      else if String.eqb method "resources/list" then respond ListResources a
      else (ErrorResponse 400 (Literal ("Unknown method: " +:+ method)), a)
  end.

(** The location resource of [mcp/resources.py]: the JSON text of the
    state, or the text of an error object. *)
Definition get_location_resource (a : Adapter.t) (location_id : string)
    (now : Q) : reply_text :=
  match get_location_state a (LocationQuery.of_id location_id) now with
  | None =>
      Text ("{" +:+ dquote +:+ "error" +:+ dquote +:+ ": " +:+ dquote
            +:+ "Location '" +:+ location_id +:+ "' not found"
            +:+ dquote +:+ "}")
  | Some result => Dumps (PState result)
  end.

End Lambda.

(* ===================================================================== *)
(** ** Readings used to state further properties *)
(* ===================================================================== *)

Global Instance Qeq_decision (a b : Q) : Decision (a == b) := Qeq_dec a b.

(** The location a file contributes, if it loads. *)
Definition parsed (blank : Location.t) (content : yaml_file)
    : option Location.t :=
  match content with
  | Unreadable _ | EmptyDocument => None
  | Document data =>
      match _parse_location_yaml blank data with
      | Ok location => Some location
      | Raise _ => None
      end
  end.


(** The names [_handle_tool_call] dispatches on. *)
Definition known_tools : list string :=
  ["get_location_state"; "list_locations"; "compute_affinity";
   "query_traces"; "predict_action"; "get_world_history";
   "get_affordance_registry"; "export_world_state"; "explain_valuation"].

(** Sample location files and the values of a pristine [Location]. *)
Module Samples.

Definition blank : Location.t :=
  Location.mk "" "" "" [] [] [] [] [] (Channels.mk 0 0 0) [] 0.

Definition woods_yaml : LocationYaml.t :=
  LocationYaml.mk (Some "whispering_woods") (Some "Whispering Woods") None
    (Some [("harm", -0.3)])
    (Value [AffordanceYaml.mk (Some "pathing") None None Missing None
              (Value (TellsYaml.mk (Some ["the woods creak"]) None))]).

Definition woods_again_yaml : LocationYaml.t :=
  LocationYaml.mk (Some "whispering_woods") (Some "Whispering Woods II")
    (Some "Replanted.") None Missing.

Definition nameless_yaml : LocationYaml.t :=
  LocationYaml.mk (Some "glade") None None None Missing.

(** A file whose [affordances:] key has nothing after it. *)
Definition bare_yaml : LocationYaml.t :=
  LocationYaml.mk (Some "moor") (Some "Moor") None None Null.

Definition files : list (string * yaml_file) :=
  [("woods.yaml", Document woods_yaml);
   ("broken.yaml", Unreadable "mapping values are not allowed here");
   ("nameless.yaml", Document nameless_yaml);
   ("bare.yaml", Document bare_yaml);
   ("empty.yaml", EmptyDocument);
   ("woods2.yaml", Document woods_again_yaml)].

End Samples.

(* ===================================================================== *)
(** ** Facts about the Python values *)
(* ===================================================================== *)

Lemma Qltb_true (a b : Q) : Qltb a b = true ↔ a < b.
Proof.
  unfold Qltb. rewrite negb_true_iff, <- not_true_iff_false, Qle_bool_iff.
  split; [apply Qnot_le_lt | apply Qlt_not_le].
Qed.

Lemma Qltb_false (a b : Q) : Qltb a b = false ↔ b <= a.
Proof. unfold Qltb. by rewrite negb_false_iff, Qle_bool_iff. Qed.

Lemma Qgeb_true (a b : Q) : Qgeb a b = true ↔ b <= a.
Proof. apply Qle_bool_iff. Qed.

Lemma Qgeb_negb_Qltb (a b : Q) : Qgeb a b = negb (Qltb a b).
Proof. unfold Qgeb, Qltb. by rewrite negb_involutive. Qed.

(** *** Float arithmetic *)

Lemma pow2_pos e : 0 < pow2 e.
Proof. apply Qpower_0_lt. reflexivity. Qed.

Lemma pow2_add a b : pow2 (a + b) == pow2 a * pow2 b.
Proof. apply Qpower_plus. discriminate. Qed.

Lemma pow2_mono a b : (a <= b)%Z -> pow2 a <= pow2 b.
Proof. intros. apply Qpower_le_compat_l; [assumption|discriminate]. Qed.

Lemma pow2_Z e : (0 <= e)%Z -> pow2 e == inject_Z (2 ^ e).
Proof. intros. unfold pow2. symmetry. apply (Zpower_Qpower 2 e). assumption. Qed.

(** Rounding to an integer moves a value by at most one half; a value
    half way above an odd integer goes up. *)
Lemma round_half_even_bounds x :
  x - (1 # 2) <= inject_Z (round_half_even x) <= x + (1 # 2).
Proof.
  unfold round_half_even.
  pose proof (Qfloor_le x) as Hl. pose proof (Qlt_floor x) as Hu.
  rewrite inject_Z_plus in Hu. change (inject_Z 1) with 1 in Hu.
  destruct (Qcompare_spec (x - inject_Z (Qfloor x)) (1 # 2)) as [He|Hlt|Hgt].
  - destruct (Z.even (Qfloor x)); rewrite ?inject_Z_plus;
      change (inject_Z 1) with 1; split; lra.
  - split; lra.
  - rewrite inject_Z_plus. change (inject_Z 1) with 1. split; lra.
Qed.

Lemma round_half_even_odd_tie x f :
  x == inject_Z f + (1 # 2) -> Z.even f = false ->
  round_half_even x = (f + 1)%Z.
Proof.
  intros Hx Hodd. unfold round_half_even.
  assert (Qfloor x = f) as Hf.
  { pose proof (Qfloor_le x) as Hl. pose proof (Qlt_floor x) as Hu.
    rewrite inject_Z_plus in Hu. change (inject_Z 1) with 1 in Hu.
    assert (inject_Z f < inject_Z (Qfloor x + 1)) as H1
      by (rewrite inject_Z_plus; change (inject_Z 1) with 1; lra).
    assert (inject_Z (Qfloor x) < inject_Z (f + 1)) as H2
      by (rewrite inject_Z_plus; change (inject_Z 1) with 1; lra).
    rewrite <- Zlt_Qlt in H1, H2. lia. }
  rewrite Hf.
  destruct (Qcompare_spec (x - inject_Z f) (1 # 2)) as [He|Hlt|Hgt].
  - rewrite Hodd. reflexivity.
  - lra.
  - reflexivity.
Qed.

(** The binade of a positive integer is its binary logarithm. *)
Lemma binade_int n : (0 < n)%Z -> binade (inject_Z n) = Z.log2 n.
Proof.
  intros Hn. unfold binade. simpl Qnum. simpl Qden.
  change (Z.log2 1) with 0%Z. rewrite Z.sub_0_r.
  assert (Qle_bool (pow2 (Z.log2 n)) (inject_Z n) = true) as ->; [|reflexivity].
  apply Qle_bool_iff. rewrite pow2_Z by apply Z.log2_nonneg.
  rewrite <- Zle_Qle. apply Z.log2_spec. assumption.
Qed.

Lemma int_lt_le (m k : Z) : inject_Z k - 1 < inject_Z m -> inject_Z k <= inject_Z m.
Proof.
  intros H. rewrite <- Zle_Qle.
  assert (inject_Z (k - 1) < inject_Z m) as H'.
  { unfold Z.sub. rewrite inject_Z_plus. change (inject_Z (Z.opp 1)) with (-(1)). lra. }
  rewrite <- Zlt_Qlt in H'. lia.
Qed.

(** An integer rounds to an infinity exactly from [2^1024 - 2^970] on,
    the midpoint between the largest double and [2^1024]. *)
Lemma round64_int_overflow z :
  (∃ s, round64 (inject_Z z) = Inf s)
  ↔ (2 ^ 1024 - 2 ^ 970 <= Z.abs z)%Z.
Proof.
  assert (HT : (0 < 2 ^ 1024 - 2 ^ 970)%Z) by (vm_compute; reflexivity).
  unfold round64.
  destruct (Qeq_bool (inject_Z z) 0) eqn:Hz.
  { apply Qeq_bool_eq in Hz.
    assert (z = 0%Z) as -> by (apply inject_Z_injective; exact Hz).
    split; [intros [s Hs]; discriminate|]. simpl. lia. }
  apply Qeq_bool_neq in Hz.
  assert (z <> 0%Z) as Hz' by (intros ->; apply Hz; reflexivity).
  change (Qabs (inject_Z z)) with (inject_Z (Z.abs z)).
  set (n := Z.abs z). assert (0 < n)%Z as Hn by (unfold n; lia).
  rewrite (binade_int n Hn).
  pose proof (Z.log2_nonneg n) as HL. pose proof (Z.log2_spec n Hn) as [Hlo Hhi].
  remember (Z.log2 n) as L eqn:HeqL. clear HeqL.
  rewrite Z.max_l by lia.
  remember (pow2 (L - 52)) as quantum eqn:Hquantum.
  remember (inject_Z n / quantum) as x eqn:Hxdef.
  remember (round_half_even x) as m eqn:Hmdef.
  assert (0 < quantum) as Hq by (subst quantum; apply pow2_pos).
  assert (x * quantum == inject_Z n) as Hx.
  { subst x. field. lra. }
  assert (pow2 L == pow2 52 * quantum) as HpL.
  { subst quantum. rewrite <- pow2_add. replace (52 + (L - 52))%Z with L by lia.
    reflexivity. }
  assert (pow2 (L + 1) == pow2 53 * quantum) as HpL1.
  { subst quantum. rewrite <- pow2_add.
    replace (53 + (L - 52))%Z with (L + 1)%Z by lia. reflexivity. }
  assert (pow2 L <= inject_Z n) as HloQ.
  { rewrite pow2_Z by lia. rewrite <- Zle_Qle. exact Hlo. }
  assert (inject_Z n < pow2 (L + 1)) as HhiQ.
  { rewrite pow2_Z by lia. rewrite <- Zlt_Qlt. replace (L + 1)%Z with (Z.succ L) by lia. exact Hhi. }
  assert (pow2 52 <= x) as Hx52.
  { apply (Qmult_le_r _ _ quantum Hq). rewrite Hx, <- HpL. exact HloQ. }
  assert (x < pow2 53) as Hx53.
  { apply (Qmult_lt_r _ _ quantum Hq). rewrite Hx, <- HpL1. exact HhiQ. }
  pose proof (round_half_even_bounds x) as [Hml Hmu].
  rewrite <- Hmdef in Hml, Hmu.
  assert (pow2 52 == inject_Z (2 ^ 52)) as H52 by reflexivity.
  assert (pow2 53 == inject_Z (2 ^ 53)) as H53 by reflexivity.
  assert (inject_Z (2 ^ 52) <= inject_Z m) as Hm52.
  { apply int_lt_le. lra. }
  assert (inject_Z m <= inject_Z (2 ^ 53)) as Hm53.
  { apply int_lt_le.
    assert (inject_Z m - 1 < inject_Z (2^53)) by lra. lra. }
  assert ((∃ s : bool,
     (if Qle_bool (pow2 1024) (Qred (inject_Z m * quantum))
      then Inf (Qltb (inject_Z z) 0)
      else Finite (if Qltb (inject_Z z) 0
                   then - Qred (inject_Z m * quantum)
                   else Qred (inject_Z m * quantum))) = Inf s)
          ↔ pow2 1024 <= inject_Z m * quantum) as ->.
  { destruct (Qle_bool _ _) eqn:Hb.
    - apply Qle_bool_iff in Hb. rewrite Qred_correct in Hb.
      split; [intros _; exact Hb|intros _; eexists; reflexivity].
    - split; [intros [s Hs]; discriminate|].
      intros Hle. rewrite <- (Qred_correct (inject_Z m * quantum)) in Hle.
      apply Qle_bool_iff in Hle. congruence. }
  destruct (Z_lt_le_dec L 1023) as [Hsmall|Hbig].
  - (* no overflow *)
    assert (inject_Z m * quantum <= pow2 (L + 1)) as Hr.
    { rewrite HpL1, H53. apply Qmult_le_compat_r; [exact Hm53|lra]. }
    assert (pow2 (L + 1) <= pow2 1023) as Hp by (apply pow2_mono; lia).
    assert (pow2 1023 < pow2 1024) as Hlt by reflexivity.
    split; [intros Hover; lra|].
    intros Hge. exfalso.
    assert (2 ^ (L + 1) <= 2 ^ 1023)%Z as Hz2
      by (apply Z.pow_le_mono_r; lia).
    assert (2 ^ 1023 < 2 ^ 1024 - 2 ^ 970)%Z as Hc by (vm_compute; reflexivity).
    replace (Z.succ L) with (L + 1)%Z in Hhi by lia. lia.
  - destruct (Z_le_lt_eq_dec _ _ Hbig) as [Hhuge| <-].
    + (* the exponent is out of range *)
      assert (pow2 L <= inject_Z m * quantum) as Hr.
      { rewrite HpL, H52. apply Qmult_le_compat_r; [exact Hm52|lra]. }
      assert (pow2 1024 <= pow2 L) as Hp by (apply pow2_mono; lia).
      split; [intros _|intros _; lra].
      assert (2 ^ 1024 <= 2 ^ L)%Z as Hz2 by (apply Z.pow_le_mono_r; lia).
      assert (0 < 2 ^ 970)%Z by (vm_compute; reflexivity). lia.
    + (* the last binade *)
      clear HpL HpL1.
      assert (quantum == inject_Z (2 ^ 971)) as Hqv
        by (rewrite Hquantum; reflexivity).
      assert (pow2 1024 == inject_Z (2 ^ 53) * inject_Z (2 ^ 971)) as Hp
        by reflexivity.
      assert (inject_Z (2 ^ 1024 - 2 ^ 970)
              == (inject_Z (2 ^ 53) - (1 # 2)) * inject_Z (2 ^ 971)) as HTq
        by reflexivity.
      rewrite Zle_Qle, HTq, <- Hx, Hp, Hqv.
      assert (0 < inject_Z (2 ^ 971)) as Hpos by reflexivity.
      rewrite !(Qmult_le_r _ _ _ Hpos).
      split.
      * intros Hm. lra.
      * intros Hxge. destruct (Qle_lt_or_eq _ _ Hxge) as [Hgt|Heq].
        -- apply int_lt_le. lra.
        -- assert (m = (2 ^ 53 - 1) + 1)%Z as ->.
           { rewrite Hmdef. apply round_half_even_odd_tie; [|reflexivity].
             unfold Z.sub at 1. rewrite inject_Z_plus.
             change (inject_Z (Z.opp 1)) with (-(1)). lra. }
           rewrite <- Zle_Qle. lia.
Qed.

(** [float(n)] raises [OverflowError] exactly when [n] is at least
    [2^1024 - 2^970] in magnitude. *)
Lemma float_of_int_overflow (n : Z) :
  float_of_int n = Raise OverflowError
  ↔ (2 ^ 1024 - 2 ^ 970 <= Z.abs n)%Z.
Proof.
  rewrite <- round64_int_overflow. unfold float_of_int.
  destruct (round64 (inject_Z n)) as [q|s].
  - split; [discriminate|]. intros [s Hs]. discriminate.
  - split; [intros _; by exists s|done].
Qed.

Lemma float_of_int_in_range (n : Z) :
  (Z.abs n < 2 ^ 1024 - 2 ^ 970)%Z → ∃ x, float_of_int n = Ok x.
Proof.
  intros Hn. destruct (float_of_int n) as [x|e] eqn:Hf; [by exists x|].
  assert (e = OverflowError) as ->.
  { unfold float_of_int in Hf. by destruct (round64 _); simplify_eq. }
  apply float_of_int_overflow in Hf. lia.
Qed.

Section DictFacts.
Context {K V : Type} `{EqDecision K}.
Implicit Types (d : dict K V) (k : K) (v : V).

Lemma get_None d k : get d k = None ↔ k ∉ keys d.
Proof.
  unfold keys. induction d as [|[k' v'] d IH]; simpl.
  - split; [intros _; apply not_elem_of_nil | done].
  - rewrite not_elem_of_cons. destruct (decide (k = k')); naive_solver.
Qed.

Lemma get_is_Some d k : is_Some (get d k) ↔ k ∈ keys d.
Proof.
  rewrite <- not_eq_None_Some, get_None.
  destruct (decide (k ∈ keys d)); naive_solver.
Qed.

Lemma get_Some_values d k v : get d k = Some v → v ∈ values d.
Proof.
  unfold values. induction d as [|[k' v'] d IH]; simpl; [done|].
  destruct (decide (k = k')); intros ?; simplify_eq; set_solver.
Qed.

Lemma get_set_eq d k v : get (set d k v) k = Some v.
Proof.
  induction d as [|[k' v'] d IH]; simpl; repeat case_decide; simpl;
    repeat case_decide; congruence.
Qed.

Lemma get_set_ne d k k' v : k ≠ k' → get (set d k v) k' = get d k'.
Proof.
  intros ?. induction d as [|[k'' v'] d IH]; simpl; repeat case_decide; simpl;
    repeat case_decide; congruence.
Qed.

(** Writing a key that is present and then writing its old value back
    restores the dictionary, positions included. *)
Lemma set_restore d k v v' : get d k = Some v → set (set d k v') k v = d.
Proof.
  induction d as [|[k' v''] d IH]; simpl; [done|].
  destruct (decide (k = k')) as [->|Hne]; simpl.
  - intros [= ->]. by rewrite decide_True.
  - intros ?. rewrite decide_False by done. f_equal. auto.
Qed.

Lemma keys_set_present d k v : k ∈ keys d → keys (set d k v) = keys d.
Proof.
  unfold keys. induction d as [|[k' v'] d IH]; simpl.
  - by intros ?%elem_of_nil.
  - destruct (decide (k = k')) as [->|Hne]; simpl; [done|].
    intros [?|?]%elem_of_cons; [done|]. f_equal. auto.
Qed.

Lemma keys_set_fresh d k v : k ∉ keys d → keys (set d k v) = keys d ++ [k].
Proof.
  unfold keys. induction d as [|[k' v'] d IH]; simpl; [done|].
  rewrite not_elem_of_cons. intros [? ?].
  rewrite decide_False by done. simpl. f_equal. auto.
Qed.

Lemma values_set d k v : values (set d k v) ⊆ v :: values d.
Proof.
  unfold values. induction d as [|[k' v'] d IH]; simpl; [set_solver|].
  case_decide; simpl; set_solver.
Qed.
End DictFacts.


(** The stable descending sort. *)
Section SortFacts.
Context {A : Type} (key : A → Q).
Local Notation desc := (desc key).

Lemma insert_desc_perm x l : insert_desc key x l ≡ₚ x :: l.
Proof.
  induction l as [|y l IH]; simpl; [done|].
  destruct (Qltb (key x) (key y)); [|done].
  rewrite IH. apply Permutation_swap.
Qed.

Lemma sort_desc_perm l : sort_desc key l ≡ₚ l.
Proof.
  induction l as [|x l IH]; simpl; [done|].
  by rewrite insert_desc_perm, IH.
Qed.

Lemma sort_desc_length l : length (sort_desc key l) = length l.
Proof. by rewrite sort_desc_perm. Qed.

Lemma insert_desc_sorted x l :
  StronglySorted desc l → StronglySorted desc (insert_desc key x l).
Proof.
  induction 1 as [|y l Hl IH Hy]; simpl.
  - repeat constructor.
  - destruct (Qltb (key x) (key y)) eqn:Hxy.
    + constructor; [done|]. rewrite insert_desc_perm.
      constructor; [|done]. apply Qltb_true in Hxy. by apply Qlt_le_weak.
    + apply Qltb_false in Hxy.
      constructor; [by constructor|]. constructor; [done|].
      eapply Forall_impl; [exact Hy|]. unfold desc. intros z ?.
      by apply Qle_trans with (key y).
Qed.

Lemma sort_desc_sorted l : StronglySorted desc (sort_desc key l).
Proof.
  induction l as [|x l IH]; simpl; [constructor|by apply insert_desc_sorted].
Qed.

(** An element with the largest key stays in front of later elements with
    the same key: the sort is stable at the head. *)
Lemma insert_desc_head x l :
  Forall (λ y, key y <= key x) l → insert_desc key x l = x :: l.
Proof.
  destruct 1 as [|y l Hy _]; simpl; [done|].
  by rewrite (proj2 (Qltb_false _ _) Hy).
Qed.

(** The first [n] elements of the sorted list are [n] largest ones: what is
    cut off is nowhere larger than what is kept. *)
Lemma sort_desc_take n l :
  ∃ rest, take n (sort_desc key l) ++ rest ≡ₚ l
          ∧ Forall (λ y, Forall (λ x, key y <= key x)
                           (take n (sort_desc key l))) rest.
Proof.
  exists (drop n (sort_desc key l)). split.
  - by rewrite take_drop, sort_desc_perm.
  - pose proof (sort_desc_sorted l) as Hs.
    rewrite <- (take_drop n (sort_desc key l)) in Hs.
    apply Forall_forall. intros y Hy. apply Forall_forall. intros x Hx.
    by apply (StronglySorted_app_1_elem_of desc _ _ x y Hs).
Qed.
End SortFacts.

(* ===================================================================== *)
(** ** The adapter state *)
(* ===================================================================== *)

Section AdapterFacts.
Context `{WorldAffinity}.
Implicit Types (a : Adapter.t) (r : ref).

Lemma wf_deref a location_id r :
  Adapter.wf a → get (Adapter._locations a) location_id = Some r →
  is_Some (Adapter.deref a r).
Proof.
  intros [_ Hrefs] Hget. apply lookup_lt_is_Some_2.
  eapply Forall_forall in Hrefs; [exact Hrefs|].
  by eapply get_Some_values.
Qed.

Lemma resolve_None a location_id :
  Adapter.wf a →
  resolve a location_id = None ↔ get (Adapter._locations a) location_id = None.
Proof.
  intros Hwf. unfold resolve.
  destruct (get _ location_id) as [r|] eqn:Hget; simpl; [|done].
  destruct (wf_deref _ _ _ Hwf Hget) as [v Hv]. rewrite Hv. done.
Qed.

Lemma wf_init : Adapter.wf Adapter.init.
Proof. split; [apply NoDup_nil_2 | apply Forall_nil_2]. Qed.

Lemma wf_alloc a v : Adapter.wf a → Adapter.wf (Adapter.alloc a v).2.
Proof.
  intros [? Hrefs]. split; [done|]. simpl.
  eapply Forall_impl; [exact Hrefs|]. intros r ?. simpl in *.
  rewrite length_app. lia.
Qed.

Lemma wf_set_location a location_id r :
  Adapter.wf a → (r < length (Adapter.heap a))%nat →
  Adapter.wf (Adapter.set_location a location_id r).
Proof.
  intros [Hkeys Hrefs] ?. split; simpl.
  - unfold PyDict.wf in *.
    destruct (decide (location_id ∈ keys (Adapter._locations a))).
    + by rewrite keys_set_present.
    + rewrite keys_set_fresh by done.
      apply NoDup_app. split_and!; [done| |apply NoDup_singleton].
      intros k ? ->%list_elem_of_singleton. done.
  - apply Forall_forall. intros r' Hr'.
    apply values_set in Hr'. apply elem_of_cons in Hr' as [->|Hr']; [done|].
    eapply Forall_forall in Hrefs; eauto.
Qed.

(** Loading locations keeps the adapter well formed. *)
Lemma wf_load a location : Adapter.wf a → Adapter.wf (Adapter.load a location).
Proof.
  intros Hwf. unfold Adapter.load. simpl.
  apply (wf_set_location (Adapter.alloc a location).2).
  - by apply wf_alloc.
  - simpl. rewrite length_app. simpl. lia.
Qed.

Lemma agree_resolve a a' location_id :
  Adapter.wf a → agree a a' → resolve a' location_id = resolve a location_id.
Proof.
  intros [_ Hrefs] [Hlocs Hobjs]. unfold resolve. rewrite Hlocs.
  destruct (get _ location_id) as [r|] eqn:Hget; simpl; [|done].
  apply Hobjs. eapply Forall_forall in Hrefs; [exact Hrefs|].
  by eapply get_Some_values.
Qed.

(** The state a prediction on a present location leaves behind: the
    dictionary is the one it found, and the heap has one more object, the
    copy the event was logged to. *)
Lemma predict_state a prediction t_before t_log t_after r v :
  get (Adapter._locations a) (ActionPrediction.location_id prediction) = Some r →
  Adapter.deref a r = Some v →
  ∃ event,
    (predict_action_consequence a prediction t_before t_log t_after).2
    = Adapter.mk (Adapter._locations a)
        (Adapter.heap a ++ [log_event v event t_log]).
Proof.
  intros Hget Hv. unfold predict_action_consequence.
  rewrite Hget. unfold Adapter.deepcopy. rewrite Hv. simpl.
  unfold Adapter.mutate. simpl.
  rewrite lookup_app_r, Nat.sub_diag by done. simpl.
  rewrite Hget. eexists.
  match goal with |- (let '(_, _) := ?p in _).2 = _ => destruct p end.
  simpl. unfold Adapter.set_location. simpl.
  rewrite (set_restore _ _ r) by done. f_equal.
  rewrite insert_app_r_alt, Nat.sub_diag by done. done.
Qed.

Lemma predict_agree a prediction t_before t_log t_after :
  agree a (predict_action_consequence a prediction t_before t_log t_after).2.
Proof.
  destruct (get (Adapter._locations a) (ActionPrediction.location_id prediction))
    as [r|] eqn:Hget.
  - destruct (Adapter.deref a r) as [v|] eqn:Hv.
    + destruct (predict_state a prediction t_before t_log t_after r v)
        as [event ->]; [done..|].
      split; [done|]. intros r' ?. unfold Adapter.deref. simpl.
      by rewrite lookup_app_l.
    + unfold predict_action_consequence, Adapter.deepcopy.
      rewrite Hget, Hv. done.
  - unfold predict_action_consequence. rewrite Hget. done.
Qed.

(** A prediction keeps the adapter well formed. *)
Lemma predict_wf a prediction t_before t_log t_after :
  Adapter.wf a →
  Adapter.wf (predict_action_consequence a prediction t_before t_log t_after).2.
Proof.
  intros Hwf.
  destruct (get (Adapter._locations a) (ActionPrediction.location_id prediction))
    as [r|] eqn:Hget.
  - destruct (wf_deref _ _ _ Hwf Hget) as [v Hv].
    destruct (predict_state a prediction t_before t_log t_after r v)
      as [event ->]; [done..|].
    destruct Hwf as [? Hrefs]. split; [done|]. simpl.
    eapply Forall_impl; [exact Hrefs|]. intros r' ?. simpl in *.
    rewrite length_app. lia.
  - unfold predict_action_consequence. rewrite Hget. done.
Qed.

End AdapterFacts.

(* ===================================================================== *)
(** ** Trace queries *)
(* ===================================================================== *)

Section QueryFacts.
Context `{WorldAffinity}.

(** A loop that appends the [TraceInfo] of every entry that passes its
    tests, guarded by a channel test, adds the matching entries in order. *)
Lemma loop_filter {B} (selected : bool)
    (body : list TraceInfo.t → B → list TraceInfo.t)
    (h : B → option string * string * TraceInfo.t)
    (query : TraceQuery.t) (l : list B) (results : list TraceInfo.t) :
  (∀ acc x, (if selected then body acc x else acc)
            = acc ++ (if trace_matches query (h x) then [(h x).2] else [])) →
  (if selected then foldl body results l else results)
  = results ++ (snd <$> filter (λ x, trace_matches query x = true) (h <$> l)).
Proof.
  intros Hbody. revert results.
  induction l as [|x l IH]; intros results.
  - simpl. rewrite app_nil_r. by destruct selected.
  - rewrite fmap_cons, filter_cons. specialize (Hbody results x).
    destruct selected; simpl.
    + rewrite Hbody. specialize (IH (results ++
        (if trace_matches query (h x) then [(h x).2] else []))).
      simpl in IH. rewrite IH, <- app_assoc. f_equal.
      destruct (trace_matches query (h x)) eqn:Hm; case_decide; done.
    + specialize (IH results). simpl in IH.
      destruct (trace_matches query (h x)) eqn:Hm; case_decide; try done.
      apply (f_equal length) in Hbody. rewrite length_app in Hbody.
      simpl in Hbody. lia.
Qed.

Lemma scan_location_matches query now results location :
  scan_location query now results location
  = results ++ (snd <$> filter (λ x, trace_matches query x = true)
                          (all_traces location now)).
Proof.
  unfold scan_location, all_traces, items.
  rewrite !filter_app, !fmap_app, !app_assoc.
  rewrite (loop_filter (channel_selected (TraceQuery.channel query) "personal")
             _ (personal_entry now) query).
  2:{ intros acc [[actor_id event_type] trace]. unfold trace_matches, Qltb.
      simpl. destruct (channel_selected _ _); simpl; [|by rewrite app_nil_r].
      repeat (destruct (filter_rejects _ _)); simpl; rewrite ?app_nil_r; try done.
      destruct (Qle_bool _ _); simpl; by rewrite ?app_nil_r. }
  rewrite (loop_filter (channel_selected (TraceQuery.channel query) "group")
             _ (group_entry now) query).
  2:{ intros acc [[actor_tag event_type] trace]. unfold trace_matches, Qltb.
      simpl. destruct (channel_selected _ _); simpl; [|by rewrite app_nil_r].
      repeat (destruct (filter_rejects _ _)); simpl; rewrite ?app_nil_r; try done.
      destruct (Qle_bool _ _); simpl; by rewrite ?app_nil_r. }
  rewrite (loop_filter (channel_selected (TraceQuery.channel query) "behavior")
             _ (behavior_entry now) query).
  2:{ intros acc [event_type trace]. unfold trace_matches, Qltb.
      simpl. destruct (channel_selected _ _); simpl; [|by rewrite app_nil_r].
      repeat (destruct (filter_rejects _ _)); simpl; rewrite ?app_nil_r; try done.
      destruct (Qle_bool _ _); simpl; by rewrite ?app_nil_r. }
  done.
Qed.

(** The loops of [query_traces] collect exactly the matching traces of the
    scanned locations. *)
Lemma collect_traces_candidates a query now locations :
  collect_traces a query now locations = candidates a query now locations.
Proof.
  unfold collect_traces, candidates.
  rewrite <- (app_nil_l (_ ≫= _)). generalize (@nil TraceInfo.t).
  induction locations as [|r locations IH]; intros results; simpl.
  - by rewrite app_nil_r.
  - destruct (Adapter.deref a r) as [location|]; [|apply IH].
    rewrite IH, scan_location_matches, bind_cons, app_assoc. done.
Qed.


End QueryFacts.

(* ===================================================================== *)
(** ** Predictions *)
(* ===================================================================== *)

Section PredictFacts.
Context `{WorldAffinity}.

Lemma hostile_loop affordances (triggered hints : list string) :
  foldl (λ '(triggered, narrative_hints) aff,
           if AffordanceConfig.enabled aff then
             let triggered :=
               triggered ++ [AffordanceConfig.affordance_type aff] in
             match AffordanceConfig.tells_hostile aff with
             | tell :: _ => (triggered, narrative_hints ++ [tell])
             | [] => (triggered, narrative_hints)
             end
           else (triggered, narrative_hints))
        (triggered, hints) affordances
  = (triggered ++ (AffordanceConfig.affordance_type
                     <$> filter (λ aff, AffordanceConfig.enabled aff = true)
                           affordances),
     hints ++ (filter (λ aff, AffordanceConfig.enabled aff = true) affordances
               ≫= λ aff, first_tell (AffordanceConfig.tells_hostile aff))).
Proof.
  revert triggered hints.
  induction affordances as [|aff affordances IH]; intros triggered hints; simpl.
  - by rewrite !app_nil_r.
  - rewrite filter_cons.
    destruct (AffordanceConfig.enabled aff) eqn:Hen; case_decide; try done.
    destruct (AffordanceConfig.tells_hostile aff) as [|tell tells] eqn:Htells;
      rewrite IH, fmap_cons, bind_cons, Htells, <- !app_assoc; done.
Qed.

Lemma favorable_loop affordances (triggered hints : list string) :
  foldl (λ '(triggered, narrative_hints) aff,
           if AffordanceConfig.enabled aff then
             match AffordanceConfig.tells_favorable aff with
             | tell :: _ => (triggered, narrative_hints ++ [tell])
             | [] => (triggered, narrative_hints)
             end
           else (triggered, narrative_hints))
        (triggered, hints) affordances
  = (triggered,
     hints ++ (filter (λ aff, AffordanceConfig.enabled aff = true) affordances
               ≫= λ aff, first_tell (AffordanceConfig.tells_favorable aff))).
Proof.
  revert triggered hints.
  induction affordances as [|aff affordances IH]; intros triggered hints; simpl.
  - by rewrite !app_nil_r.
  - rewrite filter_cons.
    destruct (AffordanceConfig.enabled aff) eqn:Hen; case_decide; try done.
    destruct (AffordanceConfig.tells_favorable aff) as [|tell tells] eqn:Htells;
      rewrite IH, bind_cons, Htells, <- ?app_assoc; done.
Qed.

Lemma deepcopy_alloc a r v :
  Adapter.deref a r = Some v →
  Adapter.deepcopy a r
  = Some (length (Adapter.heap a),
          Adapter.mk (Adapter._locations a) (Adapter.heap a ++ [v])).
Proof. intros Hv. unfold Adapter.deepcopy. by rewrite Hv. Qed.

Lemma mutate_last locations heap v f :
  Adapter.mutate (Adapter.mk locations (heap ++ [v])) (length heap) f
  = Adapter.mk locations (heap ++ [f v]).
Proof.
  unfold Adapter.mutate. simpl.
  rewrite lookup_app_r, Nat.sub_diag by done. simpl.
  by rewrite insert_app_r_alt, Nat.sub_diag by done.
Qed.

Lemma compute_affinity_resolve a location_id actor_id actor_tags now location :
  resolve a location_id = Some location →
  is_Some (compute_affinity_for_actor a location_id actor_id actor_tags now).
Proof.
  unfold resolve, compute_affinity_for_actor. intros ->. by eexists.
Qed.

(** The result of a prediction on a present location: both affinities are
    computed, and the two lists are derived from the label of the second
    and from the affordances of the committed location. *)
Lemma predict_result a prediction t_before t_log t_after location :
  resolve a (ActionPrediction.location_id prediction) = Some location →
  ∃ before after,
    (predict_action_consequence a prediction t_before t_log t_after).1
    = Some (ActionConsequence.mk
              (ActionPrediction.location_id prediction)
              (ActionPrediction.actor_id prediction)
              (ActionPrediction.event_type prediction)
              (Some before) (Some after)
              (derive_triggers (Some after) (Location.affordances location)).1
              (derive_triggers (Some after) (Location.affordances location)).2).
Proof.
  intros Hres.
  destruct (compute_affinity_resolve a _ (ActionPrediction.actor_id prediction)
              (remove_dups (ActionPrediction.actor_tags prediction))
              t_before location Hres) as [before Hbefore].
  unfold resolve in Hres.
  destruct (get _ _) as [r|] eqn:Hget; [simpl in Hres|done].
  unfold predict_action_consequence.
  rewrite Hget, Hbefore, (deepcopy_alloc a r location Hres).
  cbv beta iota zeta. rewrite mutate_last. simpl Adapter._locations.
  rewrite Hget. unfold Adapter.set_location at 2. simpl Adapter.heap.
  simpl Adapter._locations.
  rewrite (set_restore _ _ r) by done.
  match goal with
  | |- context [compute_affinity_for_actor ?a' ?i ?x ?t ?n] =>
      destruct (compute_affinity_resolve a' i x t n
                  (log_event location
                     (AffinityEvent.mk
                        (ActionPrediction.event_type prediction)
                        (ActionPrediction.actor_id prediction)
                        (remove_dups (ActionPrediction.actor_tags prediction))
                        (ActionPrediction.location_id prediction)
                        (ActionPrediction.intensity prediction)) t_log))
        as [after Hafter]
  end.
  { unfold resolve, Adapter.set_location. simpl. rewrite get_set_eq. simpl.
    unfold Adapter.deref. simpl.
    by rewrite lookup_app_r, Nat.sub_diag by done. }
  rewrite Hafter. exists before, after.
  unfold Adapter.deref at 1. simpl Adapter.heap.
  rewrite lookup_app_l by (by eapply lookup_lt_Some).
  unfold Adapter.deref in Hres. rewrite Hres. simpl from_option.
  by destruct (derive_triggers _ _).
Qed.

End PredictFacts.

(* ===================================================================== *)
(** ** History summaries and valuations *)
(* ===================================================================== *)

Lemma split_dot_head_prefix (s : string) :
  ∃ rest, s = split_dot_head s +:+ rest
          ∧ (rest = "" ∨ ∃ rest', rest = String "." rest')
          ∧ "."%char ∉ list_ascii_of_string (split_dot_head s).
Proof.
  induction s as [|c s (rest & Hs & Hrest & Hdot)]; simpl.
  - exists "". split_and!; [done|by left|apply not_elem_of_nil].
  - destruct (Ascii.eqb_spec c ".") as [->|Hc].
    + exists (String "." s). split_and!; [done|by right; eexists|].
      apply not_elem_of_nil.
    + exists rest. split_and!; [|done|].
      { change (String c s = String c (split_dot_head s +:+ rest)).
        by f_equal. }
      simpl.
      apply not_elem_of_cons. split; [congruence|done].
Qed.

(** The branches of the code and the rows of the table are the same. *)
Lemma determine_mood_table (harm offer create : float) :
  determine_mood harm offer create = mood_table harm offer create.
Proof.
  unfold determine_mood, mood_table, fgeb, fleb.
  by destruct (fltb harm (literal 1.0)).
Qed.

(** [behavior_summary] holds, for each category, the float sum of the
    accumulated values of the in-window behavior traces of that category,
    added in the order of the map. *)
Lemma scan_behavior_total cutoff traces category :
  default (Finite 0) (get (scan_behavior cutoff traces) category)
  = category_total cutoff traces category.
Proof.
  unfold scan_behavior, category_total, items.
  assert (∀ summary : dict string float,
            default (Finite 0)
              (get (foldl (λ behavior_summary '(event_type, trace),
                 if fgeb (Finite (TraceRecord.last_updated trace)) cutoff then
                   let category := split_dot_head event_type in
                   set behavior_summary category
                     (fadd (default (Finite 0) (get behavior_summary category))
                        (TraceRecord.accumulated trace))
                 else behavior_summary) summary traces) category)
            = foldl fadd (default (Finite 0) (get summary category))
                (fmap (λ kt, TraceRecord.accumulated kt.2)
                   (filter (λ kt, in_window cutoff kt.2 = true
                                  ∧ split_dot_head kt.1 = category) traces)))
    as Hloop.
  { induction traces as [|[event_type trace] traces IH]; intros summary; [done|].
    simpl foldl at 1. rewrite IH, filter_cons. unfold in_window, fgeb. simpl.
    destruct (fleb cutoff (Finite (TraceRecord.last_updated trace))) eqn:Hw.
    - destruct (decide (split_dot_head event_type = category)) as [Hcat|Hcat].
      + rewrite decide_True by done. subst category.
        by rewrite get_set_eq.
      + rewrite decide_False by naive_solver. by rewrite get_set_ne.
    - rewrite decide_False by naive_solver. done. }
  apply Hloop.
Qed.

Lemma scan_personal_recent cutoff
    (traces : dict (string * string) TraceRecord.t) :
  let recent := filter (λ kt, in_window cutoff kt.2 = true) traces in
  (scan_personal cutoff traces).1
  = (λ kt, DominantEvent.mk kt.1.2 kt.1.1 (TraceRecord.accumulated kt.2)
             (TraceRecord.event_count kt.2)) <$> recent
  ∧ NoDup (scan_personal cutoff traces).2
  ∧ ∀ actor, actor ∈ (scan_personal cutoff traces).2
             ↔ ∃ kt, kt ∈ recent ∧ kt.1.1 = actor.
Proof.
  unfold scan_personal, items.
  assert (∀ (events : list DominantEvent.t) (actors : list string),
    NoDup actors →
    let out :=
      foldl (λ '(dominant_events, notable_actors)
               '((actor_id, event_type), trace),
               if fgeb (Finite (TraceRecord.last_updated trace)) cutoff then
                 (dominant_events ++
                    [DominantEvent.mk event_type actor_id
                       (TraceRecord.accumulated trace)
                       (TraceRecord.event_count trace)],
                  set_add actor_id notable_actors)
               else (dominant_events, notable_actors))
            (events, actors) traces in
    let recent := filter (λ kt, in_window cutoff kt.2 = true) traces in
    out.1 = events ++ ((λ kt, DominantEvent.mk kt.1.2 kt.1.1
                                (TraceRecord.accumulated kt.2)
                                (TraceRecord.event_count kt.2)) <$> recent)
    ∧ NoDup out.2
    ∧ ∀ actor, actor ∈ out.2
               ↔ actor ∈ actors ∨ ∃ kt, kt ∈ recent ∧ kt.1.1 = actor) as Hloop.
  { unfold in_window, fgeb.
    induction traces as [|[[actor_id event_type] trace] traces IH];
      intros events actors Hnodup; simpl.
    - rewrite app_nil_r. split_and!; [done..|].
      intros actor. split; [by left|]. intros [?|(kt & []%elem_of_nil & _)]. done.
    - rewrite filter_cons. simpl.
      case_decide as Hw; [|apply not_true_is_false in Hw]; rewrite Hw.
      + specialize (IH (events ++ [DominantEvent.mk event_type actor_id
                                     (TraceRecord.accumulated trace)
                                     (TraceRecord.event_count trace)])
                      (set_add actor_id actors)).
        destruct IH as (Hev & Hnd & Hin).
        { unfold set_add. case_bool_decide; [done|].
          apply NoDup_app. split_and!; [done| |apply NoDup_singleton].
          intros x ? ->%list_elem_of_singleton. done. }
        split_and!; [by rewrite Hev, <- app_assoc|done|].
        intros actor. rewrite Hin. unfold set_add.
        setoid_rewrite elem_of_cons.
        case_bool_decide; [|rewrite elem_of_app, list_elem_of_singleton];
          naive_solver.
      + apply IH. done. }
  destruct (Hloop [] [] (NoDup_nil_2)) as (Hev & Hnd & Hin).
  simpl. split_and!; [done..|].
  intros actor. rewrite Hin. split; [|naive_solver].
  intros [[]%elem_of_nil|?]. done.
Qed.

(* ===================================================================== *)
(** ** Properties of the operations *)
(* ===================================================================== *)

Section OperationFacts.
Context `{WorldAffinity}.
Implicit Types (a : Adapter.t).

(** C1.  A call to [predict_action_consequence] leaves the committed state
    of every location unchanged: for any query and any clock reading,
    [get_location_state] returns the same [LocationState] (traces,
    cooldowns, saturation, affordances and all) on the adapter state after
    the call as on the state before it.  The adapter is well formed: the
    ids of its dictionary are distinct and every stored reference denotes
    an object. *)
Theorem predict_leaves_location_state a prediction t_before t_log t_after
    query now :
  Adapter.wf a →
  get_location_state
    (predict_action_consequence a prediction t_before t_log t_after).2
    query now
  = get_location_state a query now.
Proof.
  intros Hwf. unfold get_location_state.
  pose proof (agree_resolve a _ (LocationQuery.location_id query) Hwf
                (predict_agree a prediction t_before t_log t_after)) as Hres.
  unfold resolve in Hres. by rewrite Hres.
Qed.


(** A negative [limit] is a slice from the end: [-k] drops the [k] smallest
    matches instead of bounding the length. *)
Lemma query_traces_negative_limit a query now locations :
  (TraceQuery.limit query < 0)%Z →
  scanned_locations a query = Ok locations →
  ∃ results,
    query_traces a query now = Ok results
    ∧ length results
      = (length (candidates a query now locations)
         - Z.to_nat (- TraceQuery.limit query))%nat.
Proof.
  intros Hlimit Hscan. unfold query_traces, slice_to. rewrite Hscan.
  rewrite (proj2 (Z.ltb_lt _ _) Hlimit), collect_traces_candidates.
  eexists. split; [done|].
  rewrite length_take, sort_desc_length. lia.
Qed.

(** C4.  For every prediction on an existing location, with [label] the
    threshold label of the predicted affinity and "enabled" the flag of the
    affordance's configuration at the location: if [label] is hostile or
    wary, [triggered_affordances] holds exactly the types of the enabled
    affordances and [narrative_hints] exactly the first hostile tell of
    each enabled affordance that has one; if [label] is warm or favorable,
    [triggered_affordances] is empty and [narrative_hints] holds exactly
    the first favorable tell of each enabled affordance that has one; if
    [label] is neutral, both lists are empty. *)
Theorem predict_affordance_triggers a prediction t_before t_log t_after
    location :
  resolve a (ActionPrediction.location_id prediction) = Some location →
  ∃ consequence after,
    (predict_action_consequence a prediction t_before t_log t_after).1
    = Some consequence
    ∧ ActionConsequence.affinity_after consequence = Some after
    ∧ let label := AffinityScore.threshold_label after in
      let enabled aff :=
        aff ∈ Location.affordances location
        ∧ AffordanceConfig.enabled aff = true in
      let triggered := ActionConsequence.triggered_affordances consequence in
      let hints := ActionConsequence.narrative_hints consequence in
      (label = "hostile" ∨ label = "wary" →
       (∀ t, t ∈ triggered
             ↔ ∃ aff, enabled aff ∧ AffordanceConfig.affordance_type aff = t)
       ∧ (∀ h, h ∈ hints
               ↔ ∃ aff, enabled aff
                        ∧ head (AffordanceConfig.tells_hostile aff) = Some h))
      ∧ (label = "warm" ∨ label = "favorable" →
         triggered = []
         ∧ (∀ h, h ∈ hints
                 ↔ ∃ aff, enabled aff
                          ∧ head (AffordanceConfig.tells_favorable aff) = Some h))
      ∧ (label = "neutral" → triggered = [] ∧ hints = []).
Proof.
  intros Hres.
  destruct (predict_result a prediction t_before t_log t_after location Hres)
    as (before & after & ->).
  eexists _, after. split; [done|]. split; [done|]. simpl.
  assert (Htell : ∀ (h : string) tells, h ∈ first_tell tells ↔ head tells = Some h).
  { intros h [|tell tells]; unfold first_tell; simpl.
    - split; [by intros ?%elem_of_nil | done].
    - rewrite list_elem_of_singleton. naive_solver. }
  split_and!.
  - intros Hlabel.
    assert (bool_decide (AffinityScore.threshold_label after
                         ∈ ["hostile"; "wary"]) = true) as ->.
    { apply bool_decide_eq_true_2. set_solver. }
    rewrite hostile_loop. simpl. split.
    + intros t. rewrite list_elem_of_fmap.
      setoid_rewrite list_elem_of_filter. naive_solver.
    + intros h. rewrite list_elem_of_bind.
      setoid_rewrite list_elem_of_filter. setoid_rewrite Htell. naive_solver.
  - intros Hlabel.
    assert (bool_decide (AffinityScore.threshold_label after
                         ∈ ["hostile"; "wary"]) = false) as ->.
    { apply bool_decide_eq_false_2. destruct Hlabel as [-> | ->]; set_solver. }
    assert (bool_decide (AffinityScore.threshold_label after
                         ∈ ["warm"; "favorable"]) = true) as ->.
    { apply bool_decide_eq_true_2. set_solver. }
    rewrite favorable_loop. simpl. split; [done|].
    intros h. rewrite list_elem_of_bind.
    setoid_rewrite list_elem_of_filter. setoid_rewrite Htell. naive_solver.
  - intros ->.
    rewrite !bool_decide_eq_false_2 by set_solver. done.
Qed.

(** C5.  For every existing location and every event-type string,
    [explain_valuation] (the tool and the Lambda handler alike) resolves in
    three tiers: an exact entry of the profile gives its weight with match
    type "exact"; otherwise an entry for the category gives its weight with
    match type "category"; otherwise the weight is 0.0 with match type
    "default".  The category is the part of the event type before its first
    ['.']: it contains no ['.'], and what follows it in the event type is
    empty or starts with ['.']. *)
Theorem explain_valuation_tiers a location_id event_type location :
  resolve a location_id = Some location →
  let profile := Location.valuation_profile location in
  let category := split_dot_head event_type in
  ∃ v v',
    explain_valuation a location_id event_type = ToolOk v
    ∧ handle_explain_valuation a location_id event_type = ToolOk v'
    ∧ (Valuation.weight v', Valuation.match_type v', Valuation.category v')
      = (Valuation.weight v, Valuation.match_type v, Valuation.category v)
    ∧ (∀ w, get profile event_type = Some w →
            Valuation.weight v = w ∧ Valuation.match_type v = "exact")
    ∧ (∀ w, get profile event_type = None → get profile category = Some w →
            Valuation.weight v = w ∧ Valuation.match_type v = "category"
            ∧ Valuation.category v = Some category)
    ∧ (get profile event_type = None → get profile category = None →
       Valuation.weight v = 0.0 ∧ Valuation.match_type v = "default")
    ∧ ∃ rest, event_type = category +:+ rest
              ∧ (rest = "" ∨ ∃ rest', rest = String "." rest')
              ∧ "."%char ∉ list_ascii_of_string category.
Proof.
  intros Hres. simpl.
  unfold explain_valuation, handle_explain_valuation, get_location.
  unfold resolve in Hres. rewrite Hres.
  destruct (get (Location.valuation_profile location) event_type)
    as [w|] eqn:Hexact;
    [|destruct (get (Location.valuation_profile location)
                  (split_dot_head event_type)) as [w|] eqn:Hcat];
    eexists _, _; (split; [reflexivity|]); (split; [reflexivity|]); simpl;
    (split_and!; [done|naive_solver..|apply split_dot_head_prefix]).
Qed.

(** C7.  On a well-formed adapter, each of [get_location_state],
    [compute_affinity_for_actor], [predict_action_consequence] and
    [get_world_history_summary] returns [None] if and only if the location
    id is not among the ids of the store, and the tool of each operation
    replies with the "not found" error in exactly that case.  For a present
    location the first three return a result value;
    [get_world_history_summary] returns one when
    [time_window_days * 86400] converts to a float, that is when it is
    below [2^1024 - 2^970] in magnitude, and raises [OverflowError], as
    does its tool, when it is not. *)
Theorem not_found_iff_absent a location_id include_traces include_affordances
    decay_to_now actor_id actor_tags event_type intensity
    t_before t_log t_after time_window_days now :
  Adapter.wf a →
  let absent := location_id ∉ list_locations a in
  let query :=
    LocationQuery.mk location_id include_traces include_affordances
      decay_to_now in
  let prediction :=
    ActionPrediction.mk actor_id actor_tags location_id event_type intensity in
  let history :=
    get_world_history_summary a location_id time_window_days now in
  ((get_location_state a query now = None ↔ absent)
   ∧ (compute_affinity_for_actor a location_id actor_id actor_tags now = None
      ↔ absent)
   ∧ ((predict_action_consequence a prediction t_before t_log t_after).1 = None
      ↔ absent)
   ∧ (history = Ok None ↔ absent))
  ∧ ((is_error (tool_get_location_state a location_id include_traces
                  include_affordances now) ↔ absent)
     ∧ (is_error (tool_compute_affinity a location_id actor_id actor_tags now)
        ↔ absent)
     ∧ (is_error (tool_predict_action a actor_id actor_tags location_id
                    event_type intensity t_before t_log t_after).1 ↔ absent)
     ∧ ((∃ reply,
           tool_get_world_history a location_id time_window_days now = Ok reply
           ∧ is_error reply) ↔ absent))
  ∧ (¬ absent →
     is_Some (get_location_state a query now)
     ∧ is_Some (compute_affinity_for_actor a location_id actor_id actor_tags
                  now)
     ∧ is_Some (predict_action_consequence a prediction t_before t_log
                  t_after).1
     ∧ ((Z.abs (time_window_days * 86400) < 2 ^ 1024 - 2 ^ 970)%Z →
        ∃ summary,
          history = Ok (Some summary)
          ∧ tool_get_world_history a location_id time_window_days now
            = Ok (ToolOk summary))
     ∧ ((2 ^ 1024 - 2 ^ 970 <= Z.abs (time_window_days * 86400))%Z →
        history = Raise OverflowError
        ∧ tool_get_world_history a location_id time_window_days now
          = Raise OverflowError)).
Proof.
  intros Hwf. simpl. unfold list_locations.
  rewrite <- get_None, <- (resolve_None a _ Hwf).
  assert (Hrender : ∀ {A} (result : option A),
            is_error (render location_id result) ↔ result = None).
  { intros A [x|]; simpl; naive_solver. }
  assert (Hstate : ∀ query,
            LocationQuery.location_id query = location_id →
            get_location_state a query now = None
            ↔ resolve a location_id = None).
  { intros query <-. unfold get_location_state, resolve. by destruct (_ ≫= _). }
  assert (Haffinity : ∀ actor_tags,
            compute_affinity_for_actor a location_id actor_id actor_tags now
            = None ↔ resolve a location_id = None).
  { intros tags. unfold compute_affinity_for_actor, resolve.
    by destruct (_ ≫= _). }
  assert (Hpredict :
            (predict_action_consequence a
               (ActionPrediction.mk actor_id actor_tags location_id event_type
                  intensity) t_before t_log t_after).1 = None
            ↔ resolve a location_id = None).
  { destruct (resolve a location_id) as [location|] eqn:Hres.
    - destruct (predict_result a
                  (ActionPrediction.mk actor_id actor_tags location_id
                     event_type intensity) t_before t_log t_after location Hres)
        as (before & after & ->). done.
    - apply (resolve_None a _ Hwf) in Hres.
      unfold predict_action_consequence. simpl. by rewrite Hres. }
  assert (Hhistory :
            match resolve a location_id with
            | None =>
                get_world_history_summary a location_id time_window_days now
                = Ok None
            | Some _ =>
                match float_of_int (time_window_days * 86400) with
                | Ok _ =>
                    ∃ summary,
                      get_world_history_summary a location_id time_window_days
                        now = Ok (Some summary)
                | Raise e =>
                    e = OverflowError
                    ∧ get_world_history_summary a location_id time_window_days
                        now = Raise OverflowError
                end
            end).
  { unfold get_world_history_summary, resolve, history_cutoff, float_of_int.
    destruct (_ ≫= _); [|done]. destruct (round64 _); [|done].
    destruct (scan_personal _ _). by eexists. }
  unfold tool_get_world_history.
  destruct (resolve a location_id) as [location|] eqn:Hres.
  - assert (Hsome : ∀ {A} (o : option A),
              (o = None ↔ Some location = None) → is_Some o).
    { intros A [x|] Ho; [by eexists|]. by destruct Ho as [Ho _]; specialize (Ho eq_refl). }
    split_and!; try done.
    + by apply Hstate.
    + destruct (float_of_int _); [destruct Hhistory as [? ->]|
                                  destruct Hhistory as [_ ->]]; done.
    + unfold tool_get_location_state. rewrite Hrender. by apply Hstate.
    + unfold tool_compute_affinity. by rewrite Hrender.
    + unfold tool_predict_action.
      destruct (predict_action_consequence _ _ _ _ _) as [result a'].
      simpl in *. by rewrite Hrender.
    + destruct (float_of_int _); [destruct Hhistory as [? ->]|
                                  destruct Hhistory as [_ ->]];
        split; try done; by intros (reply & [= <-] & []).
    + intros _. split_and!.
      * apply Hsome. by apply Hstate.
      * by apply Hsome.
      * by apply Hsome.
      * intros [x Hx]%float_of_int_in_range. rewrite Hx in Hhistory.
        destruct Hhistory as [summary ->]. by exists summary.
      * intros Hx%float_of_int_overflow. rewrite Hx in Hhistory.
        by destruct Hhistory as [_ ->].
  - rewrite Hhistory. split_and!; try done.
    + by apply Hstate.
    + unfold tool_get_location_state. rewrite Hrender. by apply Hstate.
    + unfold tool_compute_affinity. by rewrite Hrender.
    + unfold tool_predict_action.
      destruct (predict_action_consequence _ _ _ _ _) as [result a'].
      simpl in *. by rewrite Hrender.
    + split; [done|]. intros _. eexists. split; [done|]. done.
Qed.

(** C8.  For every present location and every window whose cutoff can be
    computed, the mood of [get_world_history_summary] is the decision table
    applied to the totals of the accumulated values of the in-window
    behavior traces of the categories harm, offer and create, added up as
    the code adds them: harm > 0.5 gives "violent" when harm >= 1.0 and
    "troubled" otherwise; else offer > 0.3 or create > 0.3 gives "sacred"
    when offer > 0.5 and "peaceful" otherwise; else "peaceful". *)
Theorem history_mood_table a location_id time_window_days now location cutoff :
  resolve a location_id = Some location →
  history_cutoff now time_window_days = Ok cutoff →
  ∃ summary,
    get_world_history_summary a location_id time_window_days now
    = Ok (Some summary)
    ∧ let total := category_total cutoff (Location.behavior_traces location) in
      WorldHistorySummary.mood summary
      = mood_table (total "harm") (total "offer") (total "create").
Proof.
  intros Hres Hcut. unfold get_world_history_summary.
  unfold resolve in Hres. rewrite Hres, Hcut.
  destruct (scan_personal _ _) as [dominant_events notable_actors].
  eexists. split; [done|]. simpl.
  by rewrite <- determine_mood_table, !scan_behavior_total.
Qed.

(** C9.  For every present location, with the cutoff
    [now - windowDays*86400] as the code computes it: the dominant-event
    candidates are exactly the personal traces whose [last_updated] is at
    least the cutoff, one event per trace, and the notable actors are
    exactly the actors of those traces, each once.  The returned
    [dominant_events] are the ten most intense candidates in descending
    order of accumulated intensity: they are sorted, there are ten of them
    or as many as there are candidates, and no candidate left out is more
    intense than one returned.  [notable_actors] holds ten of the notable
    actors, or all of them when they are fewer. *)
Theorem history_dominant_events a location_id time_window_days now location
    cutoff :
  resolve a location_id = Some location →
  history_cutoff now time_window_days = Ok cutoff →
  let recent :=
    filter (λ kt, fleb cutoff (Finite (TraceRecord.last_updated kt.2)) = true)
      (Location.personal_traces location) in
  let candidates :=
    (λ kt, DominantEvent.mk kt.1.2 kt.1.1 (TraceRecord.accumulated kt.2)
             (TraceRecord.event_count kt.2)) <$> recent in
  ∃ summary rest actors,
    get_world_history_summary a location_id time_window_days now
    = Ok (Some summary)
    ∧ WorldHistorySummary.dominant_events summary ++ rest ≡ₚ candidates
    ∧ Forall (λ y, Forall (λ x, DominantEvent.intensity y
                                <= DominantEvent.intensity x)
                     (WorldHistorySummary.dominant_events summary)) rest
    ∧ StronglySorted (desc DominantEvent.intensity)
        (WorldHistorySummary.dominant_events summary)
    ∧ length (WorldHistorySummary.dominant_events summary)
      = (10 `min` length candidates)%nat
    ∧ WorldHistorySummary.notable_actors summary = take 10 actors
    ∧ actors ≡ₚ remove_dups ((λ kt, kt.1.1) <$> recent)
    ∧ NoDup actors
    ∧ (∀ actor, actor ∈ actors ↔ ∃ kt, kt ∈ recent ∧ kt.1.1 = actor)
    ∧ length (WorldHistorySummary.notable_actors summary)
      = (10 `min` length (remove_dups ((λ kt, kt.1.1) <$> recent)))%nat.
Proof.
  intros Hres Hcut. cbv zeta. unfold get_world_history_summary.
  unfold resolve in Hres. rewrite Hres, Hcut.
  destruct (scan_personal_recent cutoff (Location.personal_traces location))
    as (Hevents & Hnodup & Hactors).
  unfold in_window in Hevents, Hactors.
  destruct (scan_personal _ _) as [dominant_events notable_actors].
  simpl in Hevents, Hnodup, Hactors. subst dominant_events.
  match goal with
  | |- context [sort_desc DominantEvent.intensity ?cs] =>
      destruct (sort_desc_take DominantEvent.intensity 10 cs)
        as (rest & Hperm & Htop);
      pose proof (sort_desc_sorted DominantEvent.intensity cs) as Hs;
      pose proof (sort_desc_length DominantEvent.intensity cs) as Hlen;
      rewrite <- (take_drop 10 (sort_desc _ cs)) in Hs;
      apply StronglySorted_app_1_l in Hs
  end.
  assert (Hset : list_of_set notable_actors
                 ≡ₚ remove_dups ((λ kt : string * string * TraceRecord.t,
                                    kt.1.1) <$>
                      filter (λ kt, fleb cutoff
                                      (Finite (TraceRecord.last_updated kt.2))
                                    = true)
                        (Location.personal_traces location))).
  { rewrite list_of_set_perm. apply NoDup_Permutation;
      [done|apply NoDup_remove_dups|].
    intros actor. rewrite Hactors, elem_of_remove_dups, list_elem_of_fmap.
    naive_solver. }
  eexists _, rest, (list_of_set notable_actors). split; [done|].
  cbn [WorldHistorySummary.dominant_events WorldHistorySummary.notable_actors].
  split_and!; try done.
  - rewrite length_take, Hlen. lia.
  - by rewrite list_of_set_perm.
  - intros actor. by rewrite list_of_set_perm.
  - rewrite length_take, Hset. lia.
Qed.

(** C10.  For every well-formed adapter state, the keys of the mapping
    returned by [export_world_state] are the ids returned by
    [list_locations], in the same order: every loaded location appears
    exactly once in the export, and the export has no other key. *)
Theorem export_keys_are_locations a now :
  Adapter.wf a →
  keys (export_world_state a now) = list_locations a
  ∧ NoDup (keys (export_world_state a now)).
Proof.
  intros Hwf.
  assert (keys (export_world_state a now) = list_locations a) as Hkeys.
  { unfold export_world_state, list_locations, items.
    assert (Hloop : ∀ (todo : list (string * nat)) (export : dict string ExportEntry.t),
              NoDup (keys export ++ keys todo) →
              (∀ k, k ∈ keys todo →
                    is_Some (get_location_state a (LocationQuery.of_id k) now)) →
              keys (foldl (λ export '(loc_id, _),
                      match get_location_state a (LocationQuery.of_id loc_id) now
                      with
                      | Some state => set export loc_id (export_entry state)
                      | None => export
                      end) export todo)
              = keys export ++ keys todo).
    { induction todo as [|[loc_id r] todo IH]; intros export Hnodup Hsome.
      - simpl. unfold keys at 2. simpl. by rewrite app_nil_r.
      - change (keys ((loc_id, r) :: todo)) with (loc_id :: keys todo) in *.
        simpl foldl.
        destruct (Hsome loc_id) as [state ->]; [apply list_elem_of_here|].
        apply NoDup_app in Hnodup as (Hexp & Hdisj & Htodo).
        apply NoDup_cons in Htodo as [Hfresh Htodo].
        assert (loc_id ∉ keys export) as Hnew.
        { intros Hin. apply (Hdisj _ Hin), list_elem_of_here. }
        rewrite IH.
        + by rewrite keys_set_fresh, <- app_assoc.
        + rewrite keys_set_fresh, <- app_assoc by done. simpl.
          apply NoDup_app. split_and!; [done| |by apply NoDup_cons].
          intros k Hk. by apply Hdisj.
        + intros k Hk. apply Hsome. by apply list_elem_of_further. }
    rewrite Hloop; [done|apply Hwf|].
    intros k Hk. apply get_is_Some in Hk as [r Hr].
    destruct (wf_deref a k r Hwf Hr) as [location Hloc].
    unfold get_location_state. simpl. rewrite Hr. simpl. rewrite Hloc.
    by eexists. }
  split; [done|]. rewrite Hkeys. apply Hwf.
Qed.

End OperationFacts.

(* ===================================================================== *)
(** ** The registry, and unknown locations in trace queries *)
(* ===================================================================== *)

Section RegistryFacts.
Context `{WorldAffinity}.

(** [get_location_state] reports an affordance as enabled exactly when its
    configuration at the location and the registry both enable it. *)
Lemma state_affordance_enabled location now aff :
  AffordanceInfo.enabled (state_affordance location now aff) = true
  ↔ AffordanceConfig.enabled aff = true
    ∧ is_affordance_enabled (AffordanceConfig.affordance_type aff) = true.
Proof. simpl. apply andb_true_iff. Qed.

(** [predict_action_consequence] reads the configuration only: with a
    hostile or wary prediction every affordance whose configuration is
    enabled is triggered, whatever the registry says. *)
Lemma derive_triggers_ignores_registry after affordances aff :
  AffinityScore.threshold_label after ∈ ["hostile"; "wary"] →
  aff ∈ affordances → AffordanceConfig.enabled aff = true →
  AffordanceConfig.affordance_type aff
  ∈ (derive_triggers (Some after) affordances).1.
Proof.
  intros Hlabel Hin Hen. unfold derive_triggers.
  rewrite bool_decide_eq_true_2 by done. rewrite hostile_loop. simpl.
  apply list_elem_of_fmap. exists aff. split; [done|].
  by apply list_elem_of_filter.
Qed.

(** Subscripting the store with an id it does not hold raises [KeyError];
    neither [query_traces] nor its tool catches it. *)
Lemma query_traces_unknown_location a query now location_id :
  TraceQuery.location_id query = Some location_id → location_id ≠ "" →
  location_id ∉ list_locations a →
  query_traces a query now = Raise (KeyError location_id)
  ∧ tool_query_traces a (Some location_id) (TraceQuery.actor_id query)
      (TraceQuery.event_type query) None (TraceQuery.min_intensity query)
      (TraceQuery.limit query) now
    = Raise (KeyError location_id).
Proof.
  intros Hid Hne Habsent. apply get_None in Habsent.
  assert (String.eqb location_id "" = false) as Hfalse
    by (by apply String.eqb_neq).
  unfold tool_query_traces, query_traces, scanned_locations. simpl.
  by rewrite Hid, Hfalse, Habsent.
Qed.

End RegistryFacts.

(* ===================================================================== *)
(** ** The operations on the example world *)
(* ===================================================================== *)

Local Notation W := (Fixture.affinity Fixture.open_registry).
Local Notation W_off := (Fixture.affinity Fixture.pathing_off).
Local Notation world := Fixture.world.
Local Notation day := Fixture.day.

(** C3.  The two operations disagree on an affordance that is enabled at
    the location and switched off in the registry: [get_location_state]
    reports [pathing] as not enabled, and a prediction that lands on
    "hostile" still reports it as triggered, with its hostile tell. *)
Theorem predict_ignores_registry :
  let prediction :=
    ActionPrediction.mk "alice" ["elf"] "whispering_woods" "harm.fire" 1 in
  let state :=
    get_location_state (H := W_off) world
      (LocationQuery.of_id "whispering_woods") (day 100) in
  let consequence :=
    (predict_action_consequence (H := W_off) world prediction
       (day 100) (day 100) (day 100)).1 in
  (λ s, (λ i, (AffordanceInfo.affordance_type i, AffordanceInfo.enabled i))
          <$> LocationState.affordances s) <$> state
  = Some [("pathing", false); ("ambient_messaging", false)]
  ∧ (AffinityScore.threshold_label
       <$> (consequence ≫= ActionConsequence.affinity_after)) = Some "hostile"
  ∧ ActionConsequence.triggered_affordances <$> consequence = Some ["pathing"]
  ∧ ActionConsequence.narrative_hints <$> consequence
    = Some ["the woods creak"].
Proof. vm_compute. done. Qed.

(** C6.  A trace query whose location filter names a location that is not
    in the store raises [KeyError] in the adapter, and the exception passes
    through the tool; the other location-scoped tools answer the same id
    with the "not found" error. *)
Theorem query_traces_unknown_location_raises :
  let query := TraceQuery.mk (Some "nowhere") None None None 0 100 in
  "nowhere" ∉ list_locations world
  ∧ query_traces (H := W) world query (day 100) = Raise (KeyError "nowhere")
  ∧ tool_query_traces (H := W) world (Some "nowhere") None None None 0 100
      (day 100) = Raise (KeyError "nowhere")
  ∧ tool_get_location_state (H := W) world "nowhere" true true (day 100)
    = ToolError "Location 'nowhere' not found"
  ∧ tool_get_world_history (H := W) world "nowhere" 30 (day 100)
    = Ok (ToolError "Location 'nowhere' not found").
Proof.
  simpl. split; [|by vm_compute].
  apply get_None. by vm_compute.
Qed.


(** C7, as stated: for a present location and a window of [10^400] days
    [get_world_history_summary] returns no result value; the conversion of
    the window to a float raises [OverflowError]. *)
Lemma history_huge_window_raises :
  "whispering_woods" ∈ list_locations world
  ∧ get_world_history_summary (H := W) world "whispering_woods" (10 ^ 400)
      (day 100) = Raise OverflowError
  ∧ tool_get_world_history (H := W) world "whispering_woods" (10 ^ 400)
      (day 100) = Raise OverflowError.
Proof.
  split; [by apply (bool_decide_unpack _); vm_compute|].
  split; by vm_compute.
Qed.

(** The theorems at the example world. *)

Lemma predict_leaves_location_state_witness :
  Adapter.wf world
  ∧ get_location_state (H := W)
      (predict_action_consequence (H := W) world
         (ActionPrediction.mk "alice" ["elf"] "whispering_woods" "harm.fire" 1)
         (day 100) (day 100) (day 100)).2
      (LocationQuery.of_id "whispering_woods") (day 101)
    = get_location_state (H := W) world
        (LocationQuery.of_id "whispering_woods") (day 101).
Proof.
  assert (Adapter.wf world) as Hwf.
  { split; [by apply (bool_decide_unpack _); vm_compute|].
    by apply (bool_decide_unpack _); vm_compute. }
  split; [exact Hwf|].
  apply (predict_leaves_location_state (H := W)), Hwf.
Defined.


Lemma predict_affordance_triggers_witness :
  resolve world "whispering_woods" = Some Fixture.whispering_woods
  ∧ ∃ consequence after,
      (predict_action_consequence (H := W) world
         (ActionPrediction.mk "alice" ["elf"] "whispering_woods" "harm.fire" 1)
         (day 100) (day 100) (day 100)).1 = Some consequence
      ∧ ActionConsequence.affinity_after consequence = Some after
      ∧ AffinityScore.threshold_label after = "hostile"
      ∧ "pathing" ∈ ActionConsequence.triggered_affordances consequence
      ∧ "the woods creak" ∈ ActionConsequence.narrative_hints consequence.
Proof.
  split; [reflexivity|].
  destruct (predict_affordance_triggers (H := W) world
              (ActionPrediction.mk "alice" ["elf"] "whispering_woods"
                 "harm.fire" 1)
              (day 100) (day 100) (day 100) Fixture.whispering_woods eq_refl)
    as (consequence & after & Hc & Ha & Hhostile & _).
  exists consequence, after. split; [exact Hc|]. split; [exact Ha|].
  assert (AffinityScore.threshold_label after = "hostile") as Hlabel.
  { vm_compute in Hc. injection Hc as <-. vm_compute in Ha.
    injection Ha as <-. reflexivity. }
  split; [exact Hlabel|].
  destruct (Hhostile (or_introl Hlabel)) as [Htriggered Hhints]. split.
  - apply Htriggered. exists Fixture.pathing.
    split; [split; [apply list_elem_of_here|reflexivity]|reflexivity].
  - apply Hhints. exists Fixture.pathing.
    split; [split; [apply list_elem_of_here|reflexivity]|reflexivity].
Defined.

Lemma explain_valuation_tiers_witness :
  resolve world "whispering_woods" = Some Fixture.whispering_woods
  ∧ ∃ v, explain_valuation world "whispering_woods" "harm.sword" = ToolOk v
         ∧ Valuation.weight v = -0.3
         ∧ Valuation.match_type v = "category"
         ∧ Valuation.category v = Some "harm".
Proof.
  split; [reflexivity|].
  destruct (explain_valuation_tiers world "whispering_woods"
              "harm.sword" Fixture.whispering_woods eq_refl)
    as (v & v' & Hv & _ & _ & _ & Hcategory & _).
  exists v. split; [exact Hv|].
  apply (Hcategory (-0.3)); reflexivity.
Defined.

Lemma not_found_iff_absent_witness :
  Adapter.wf world
  ∧ (get_world_history_summary (H := W) world "nowhere" 30 (day 100) = Ok None
     ↔ "nowhere" ∉ list_locations world)
  ∧ (is_error (tool_compute_affinity (H := W) world "quiet_glade" "bob"
                 ["elf"] (day 100))
     ↔ "quiet_glade" ∉ list_locations world)
  ∧ (∃ summary,
       get_world_history_summary (H := W) world "quiet_glade" 30 (day 100)
       = Ok (Some summary))
  ∧ get_world_history_summary (H := W) world "quiet_glade" (10 ^ 400) (day 100)
    = Raise OverflowError.
Proof.
  assert (Adapter.wf world) as Hwf.
  { split; [by apply (bool_decide_unpack _); vm_compute|].
    by apply (bool_decide_unpack _); vm_compute. }
  assert (¬ ("quiet_glade" ∉ list_locations world)) as Hpresent.
  { intros Habsent. apply Habsent.
    apply (bool_decide_unpack _). vm_compute. exact I. }
  assert (Z.abs (30 * 86400) < 2 ^ 1024 - 2 ^ 970)%Z as Hmonth
    by (vm_compute; reflexivity).
  assert (2 ^ 1024 - 2 ^ 970 <= Z.abs (10 ^ 400 * 86400))%Z as Hhuge
    by (vm_compute; discriminate).
  pose proof (not_found_iff_absent (H := W) world "nowhere" true true true
                "bob" ["elf"] "harm.fire" 1 (day 100) (day 100) (day 100)
                30 (day 100) Hwf) as [(_ & _ & _ & Hnowhere) _].
  pose proof (not_found_iff_absent (H := W) world "quiet_glade" true true
                true "bob" ["elf"] "harm.fire" 1 (day 100) (day 100)
                (day 100) 30 (day 100) Hwf)
    as (_ & (_ & Htool & _) & Hresult).
  pose proof (not_found_iff_absent (H := W) world "quiet_glade" true true
                true "bob" ["elf"] "harm.fire" 1 (day 100) (day 100)
                (day 100) (10 ^ 400) (day 100) Hwf) as (_ & _ & Hraise).
  destruct (Hresult Hpresent) as (_ & _ & _ & Hhistory & _).
  destruct (Hraise Hpresent) as (_ & _ & _ & _ & Hoverflow).
  destruct (Hhistory Hmonth) as (summary & Hs & _).
  split; [exact Hwf|]. split; [exact Hnowhere|]. split; [exact Htool|].
  split; [exists summary; exact Hs|exact (proj1 (Hoverflow Hhuge))].
Defined.

Lemma history_mood_table_witness :
  resolve Fixture.embers "ember_field" = Some Fixture.ember_field
  ∧ history_cutoff (day 100) 30 = Ok (Finite (day 70))
  ∧ ∃ summary,
      get_world_history_summary (H := W) Fixture.embers "ember_field" 30
        (day 100) = Ok (Some summary)
      ∧ category_total (Finite (day 70))
          (Location.behavior_traces Fixture.ember_field) "harm"
        = Finite (9007199254740991 # 9007199254740992)
      ∧ WorldHistorySummary.mood summary = "troubled".
Proof.
  assert (history_cutoff (day 100) 30 = Ok (Finite (day 70))) as Hcutoff
    by (by vm_compute).
  split; [reflexivity|]. split; [exact Hcutoff|].
  destruct (history_mood_table (H := W) Fixture.embers "ember_field" 30
              (day 100) Fixture.ember_field (Finite (day 70)) eq_refl Hcutoff)
    as (summary & Hs & Hmood).
  exists summary. split; [exact Hs|]. split; [by vm_compute|].
  rewrite Hmood. by vm_compute.
Defined.

Lemma history_dominant_events_witness :
  resolve world "whispering_woods" = Some Fixture.whispering_woods
  ∧ history_cutoff (day 100) 30 = Ok (Finite (day 70))
  ∧ ∃ summary,
      get_world_history_summary (H := W) world "whispering_woods" 30 (day 100)
      = Ok (Some summary)
      ∧ StronglySorted (desc DominantEvent.intensity)
          (WorldHistorySummary.dominant_events summary)
      ∧ length (WorldHistorySummary.dominant_events summary) = 2%nat
      ∧ length (WorldHistorySummary.notable_actors summary) = 2%nat.
Proof.
  assert (history_cutoff (day 100) 30 = Ok (Finite (day 70))) as Hcutoff
    by (by vm_compute).
  split; [reflexivity|]. split; [exact Hcutoff|].
  destruct (history_dominant_events (H := W) world "whispering_woods" 30
              (day 100) Fixture.whispering_woods (Finite (day 70)) eq_refl
              Hcutoff)
    as (summary & rest & actors & Hs & _ & _ & Hsorted & Hlen & _ & _ & _ & _
        & Hn).
  exists summary. split; [exact Hs|]. split; [exact Hsorted|].
  split; [rewrite Hlen|rewrite Hn]; by vm_compute.
Defined.

Lemma export_keys_are_locations_witness :
  Adapter.wf world
  ∧ keys (export_world_state (H := W) world (day 100))
    = ["whispering_woods"; "quiet_glade"].
Proof.
  assert (Adapter.wf world) as Hwf.
  { split; [by apply (bool_decide_unpack _); vm_compute|].
    by apply (bool_decide_unpack _); vm_compute. }
  split; [exact Hwf|].
  exact (proj1 (export_keys_are_locations (H := W) world (day 100) Hwf)).
Defined.

(* ===================================================================== *)
(** ** Loading locations *)
(* ===================================================================== *)

Section LoadingFacts.
Variable blank : Location.t.
Implicit Types (a : Adapter.t) (files : list (string * yaml_file)).

Lemma keys_set_add {V} (d : dict string V) k v :
  keys (set d k v) = set_add k (keys d).
Proof.
  unfold set_add. case_bool_decide.
  - by apply keys_set_present.
  - by apply keys_set_fresh.
Qed.

(** The object an id leads to after one more location is loaded. *)
Lemma resolve_load a location location_id :
  Adapter.wf a →
  resolve (Adapter.load a location) location_id
  = if decide (location_id = Location.location_id location)
    then Some location else resolve a location_id.
Proof.
  intros [_ Hrefs]. unfold resolve, Adapter.load, Adapter.set_location. simpl.
  case_decide as Hid.
  - subst. rewrite get_set_eq. simpl. unfold Adapter.deref. simpl.
    by rewrite lookup_app_r, Nat.sub_diag by done.
  - rewrite get_set_ne by done.
    destruct (get _ location_id) as [r|] eqn:Hget; simpl; [|done].
    unfold Adapter.deref. simpl. apply lookup_app_l.
    eapply Forall_forall in Hrefs; [exact Hrefs|]. by eapply get_Some_values.
Qed.

(** The adapter after loading is the one obtained by storing, in order, the
    locations of the files that load; one line is printed for every other
    file. *)
Lemma load_yaml_from a printed files :
  ∃ warnings,
    foldl (λ '(a, printed) '(path, content),
             match content with
             | Unreadable e => (a, printed ++ [load_warning path e])
             | EmptyDocument =>
                 (a, printed ++ [load_warning path (str_exn AttributeError)])
             | Document data =>
                 match _parse_location_yaml blank data with
                 | Ok location => (Adapter.load a location, printed)
                 | Raise e => (a, printed ++ [load_warning path (str_exn e)])
                 end
             end)
          (a, printed) files
    = (foldl Adapter.load a (omap (parsed blank) (snd <$> files)),
       printed ++ warnings)
    ∧ length warnings
      = length (filter (λ f, parsed blank f.2 = None) files).
Proof.
  revert a printed. induction files as [|[path content] files IH];
    intros a printed.
  - exists []. by rewrite app_nil_r.
  - simpl foldl at 1. rewrite filter_cons. simpl fmap. simpl omap.
    case_decide as Hd; simpl in Hd; unfold parsed in Hd; unfold parsed at 1;
      destruct content as [e| |data].
    + destruct (IH a (printed ++ [load_warning path e])) as (ws & Hfold & Hlen).
      exists (load_warning path e :: ws).
      split; [|simpl; by rewrite Hlen].
      etrans; [exact Hfold|]. by rewrite <- app_assoc.
    + destruct (IH a (printed ++ [load_warning path (str_exn AttributeError)]))
        as (ws & Hfold & Hlen).
      exists (load_warning path (str_exn AttributeError) :: ws).
      split; [|simpl; by rewrite Hlen].
      etrans; [exact Hfold|]. by rewrite <- app_assoc.
    + destruct (_parse_location_yaml blank data) as [location|e]; [done|].
      destruct (IH a (printed ++ [load_warning path (str_exn e)]))
        as (ws & Hfold & Hlen).
      exists (load_warning path (str_exn e) :: ws).
      split; [|simpl; by rewrite Hlen].
      etrans; [exact Hfold|]. by rewrite <- app_assoc.
    + done.
    + done.
    + destruct (_parse_location_yaml blank data) as [location|e]; [|done].
      destruct (IH (Adapter.load a location) printed) as (ws & Hfold & Hlen).
      exists ws. split; [exact Hfold|done].
Qed.

Lemma load_yaml_adapter a files :
  (_load_yaml_locations blank a files).1
  = foldl Adapter.load a (omap (parsed blank) (snd <$> files)).
Proof.
  unfold _load_yaml_locations.
  by destruct (load_yaml_from a [] files) as (ws & -> & _).
Qed.

Lemma wf_load_all a locations :
  Adapter.wf a → Adapter.wf (foldl Adapter.load a locations).
Proof.
  revert a. induction locations as [|l locations IH]; intros a Hwf; [done|].
  simpl. by apply IH, wf_load.
Qed.

Lemma EvenflowAdapter_wf db_url files :
  Adapter.wf (EvenflowAdapter blank db_url files).1.
Proof.
  unfold EvenflowAdapter. destruct (str_truthy db_url); [apply wf_init|].
  rewrite load_yaml_adapter. apply wf_load_all, wf_init.
Qed.

(** X1.  Whatever the files, the adapter the constructor builds is well
    formed: the ids of its dictionary are distinct and every reference it
    stores denotes an object. *)
Theorem constructed_adapter_wf db_url files :
  Adapter.wf (EvenflowAdapter blank db_url files).1.
Proof. apply EvenflowAdapter_wf. Qed.

Lemma list_locations_load_all a locations :
  list_locations (foldl Adapter.load a locations)
  = foldl (λ ids id, set_add id ids) (list_locations a)
      (Location.location_id <$> locations).
Proof.
  revert a. induction locations as [|l locations IH]; intros a; [done|].
  simpl. rewrite IH. f_equal.
  unfold list_locations, Adapter.load. simpl. apply keys_set_add.
Qed.

(** X2.  The ids of the loaded adapter are the ids of the files that load,
    in the order of their first appearance and without repetition; a file
    that cannot be read or that the parser rejects adds no id, removes none
    and prints one warning. *)
Theorem loaded_locations files :
  let '(a, printed) := _load_yaml_locations blank Adapter.init files in
  list_locations a
  = foldl (λ ids id, set_add id ids) []
      (Location.location_id <$> omap (parsed blank) (snd <$> files))
  ∧ NoDup (list_locations a)
  ∧ length printed
    = length (filter (λ f, parsed blank f.2 = None) files).
Proof.
  pose proof (load_yaml_adapter Adapter.init files) as Ha.
  unfold _load_yaml_locations in *.
  destruct (load_yaml_from Adapter.init [] files) as (ws & Hl & Hlen).
  rewrite Hl in Ha |- *. simpl in Ha. split_and!.
  - apply list_locations_load_all.
  - apply (wf_load_all Adapter.init _ wf_init).
  - done.
Qed.

Lemma resolve_load_all a locations location_id :
  Adapter.wf a →
  resolve (foldl Adapter.load a locations) location_id
  = from_option Some (resolve a location_id)
      (last (filter (λ l, Location.location_id l = location_id) locations)).
Proof.
  revert a. induction locations as [|l locations IH]; intros a Hwf; [done|].
  simpl foldl. rewrite IH by (by apply wf_load).
  rewrite filter_cons, resolve_load by done.
  case_decide as Hl; case_decide; try congruence.
  destruct (filter _ locations) as [|l' ls] eqn:Hf; [done|].
  rewrite last_cons_cons, (last_cons l' ls). by destruct (last ls).
Qed.

Lemma load_yaml_resolve files location_id :
  resolve (_load_yaml_locations blank Adapter.init files).1 location_id
  = last (filter (λ l, Location.location_id l = location_id)
            (omap (parsed blank) (snd <$> files))).
Proof.
  rewrite load_yaml_adapter, resolve_load_all by apply wf_init.
  by destruct (last _).
Qed.

(** X3.  When several files define the same id the last one that loads
    wins: the location stored under an id is the last loaded location with
    that id, and an id no file defines is not stored. *)
Theorem loaded_location_last_wins files location_id :
  resolve (_load_yaml_locations blank Adapter.init files).1 location_id
  = last (filter (λ l, Location.location_id l = location_id)
            (omap (parsed blank) (snd <$> files))).
Proof. apply load_yaml_resolve. Qed.




End LoadingFacts.

Section LoadedFacts.
Context `{WorldAffinity}.
Variable blank : Location.t.

(** X5.  On the adapter the constructor builds, the state returned for an id
    carries that id: [get_location_state] answers a query for [id] with a
    state whose [location_id] is [id] when [id] is listed, and with [None]
    otherwise. *)
Theorem loaded_state_carries_id db_url files query now :
  let a := (EvenflowAdapter blank db_url files).1 in
  LocationState.location_id <$> get_location_state a query now
  = if decide (LocationQuery.location_id query ∈ list_locations a)
    then Some (LocationQuery.location_id query) else None.
Proof.
  simpl. set (a := (EvenflowAdapter blank db_url files).1).
  assert (Hwf : Adapter.wf a) by apply EvenflowAdapter_wf.
  assert (Hkeyed : ∀ id l, resolve a id = Some l → Location.location_id l = id).
  { intros id l. unfold a, EvenflowAdapter.
    destruct (str_truthy db_url); [done|].
    rewrite load_yaml_resolve. intros Hlast.
    apply last_Some_elem_of, list_elem_of_filter in Hlast. apply Hlast. }
  unfold get_location_state, list_locations.
  change (get (Adapter._locations a) (LocationQuery.location_id query)
          ≫= Adapter.deref a)
    with (resolve a (LocationQuery.location_id query)).
  destruct (resolve a (LocationQuery.location_id query)) as [l|] eqn:Hres.
  - simpl. rewrite (Hkeyed _ _ Hres). rewrite decide_True; [done|].
    apply get_is_Some. unfold resolve in Hres.
    destruct (get _ _); [by eexists|done].
  - simpl. rewrite decide_False; [done|].
    apply get_None. by apply (resolve_None a _ Hwf).
Qed.

(** X6.  With a database URL the adapter starts without locations and
    prints nothing: no id is listed, every location-scoped operation
    answers [None], an unfiltered trace query is empty and the export has
    no entry. *)
Theorem database_mode_is_empty db_url files query trace_query location_id
    actor_id actor_tags prediction t_before t_log t_after days now :
  str_truthy db_url = true →
  let '(a, printed) := EvenflowAdapter blank db_url files in
  printed = [] ∧ list_locations a = []
  ∧ get_location_state a query now = None
  ∧ compute_affinity_for_actor a location_id actor_id actor_tags now = None
  ∧ predict_action_consequence a prediction t_before t_log t_after = (None, a)
  ∧ get_world_history_summary a location_id days now = Ok None
  ∧ (str_truthy (TraceQuery.location_id trace_query) = false →
     query_traces a trace_query now = Ok [])
  ∧ export_world_state a now = [].
Proof.
  intros Hurl. unfold EvenflowAdapter. rewrite Hurl.
  split_and!; try done.
  intros Hloc. unfold query_traces, scanned_locations.
  destruct (TraceQuery.location_id trace_query) as [id|]; [rewrite Hloc|];
    simpl; unfold slice_to; destruct (_ <? _)%Z; by rewrite take_nil.
Qed.

End LoadedFacts.

(* ===================================================================== *)
(** ** Predictions and the other readers *)
(* ===================================================================== *)

Section ReaderFacts.
Context `{WorldAffinity}.
Implicit Types (a : Adapter.t).

Lemma foldl_pointwise {A B} (f g : A → B → A) (l : list B) (x : A) :
  (∀ acc y, f acc y = g acc y) → foldl f x l = foldl g x l.
Proof.
  intros Hfg. revert x. induction l as [|y l IH]; intros x; [done|].
  simpl. by rewrite Hfg, IH.
Qed.

Lemma compute_affinity_by_resolve a b id id' actor_id actor_tags now :
  resolve a id = resolve b id' →
  compute_affinity_for_actor a id actor_id actor_tags now
  = compute_affinity_for_actor b id' actor_id actor_tags now.
Proof.
  unfold resolve, compute_affinity_for_actor. by intros ->.
Qed.

Lemma scanned_refs_live a query locations :
  Adapter.wf a → scanned_locations a query = Ok locations →
  Forall (λ r, r < length (Adapter.heap a))%nat locations.
Proof.
  intros [_ Hrefs]. unfold scanned_locations.
  destruct (TraceQuery.location_id query) as [id|]; [|by intros [= <-]].
  destruct (str_truthy (Some id)); [|by intros [= <-]].
  destruct (get _ id) as [r|] eqn:Hget; [|done]. intros [= <-].
  apply Forall_singleton. eapply Forall_forall in Hrefs; [exact Hrefs|].
  by eapply get_Some_values.
Qed.

Lemma collect_traces_agree a a' query now locations :
  agree a a' →
  Forall (λ r, r < length (Adapter.heap a))%nat locations →
  collect_traces a' query now locations = collect_traces a query now locations.
Proof.
  intros [_ Hobjs] Hlive. unfold collect_traces. generalize (@nil TraceInfo.t).
  induction Hlive as [|r locations Hr _ IH]; intros results; [done|].
  simpl. rewrite (Hobjs r Hr). apply IH.
Qed.

(** What every reader returns depends on the dictionary and on the objects
    it leads to only. *)
Lemma readers_agree a a' :
  Adapter.wf a → agree a a' →
  list_locations a' = list_locations a
  ∧ (∀ query now,
       get_location_state a' query now = get_location_state a query now)
  ∧ (∀ location_id actor_id actor_tags now,
       compute_affinity_for_actor a' location_id actor_id actor_tags now
       = compute_affinity_for_actor a location_id actor_id actor_tags now)
  ∧ (∀ query now, query_traces a' query now = query_traces a query now)
  ∧ (∀ location_id days now,
       get_world_history_summary a' location_id days now
       = get_world_history_summary a location_id days now)
  ∧ (∀ now, export_world_state a' now = export_world_state a now).
Proof.
  intros Hwf Hagree.
  assert (Hres : ∀ id, resolve a' id = resolve a id)
    by (intros id; by apply agree_resolve).
  assert (Hstate : ∀ query now,
            get_location_state a' query now = get_location_state a query now).
  { intros query now. unfold get_location_state.
    specialize (Hres (LocationQuery.location_id query)).
    unfold resolve in Hres. by rewrite Hres. }
  split_and!.
  - unfold list_locations. by rewrite (proj1 Hagree).
  - done.
  - intros. by apply compute_affinity_by_resolve.
  - intros query now. unfold query_traces.
    assert (scanned_locations a' query = scanned_locations a query) as ->.
    { unfold scanned_locations. by rewrite (proj1 Hagree). }
    destruct (scanned_locations a query) as [locations|e] eqn:Hscan; [|done].
    rewrite (collect_traces_agree a a') by eauto using scanned_refs_live.
    done.
  - intros id days now. unfold get_world_history_summary.
    specialize (Hres id). unfold resolve in Hres. by rewrite Hres.
  - intros now. unfold export_world_state. rewrite (proj1 Hagree).
    apply foldl_pointwise. intros export [loc_id r]. by rewrite Hstate.
Qed.

(** X7.  No reader can tell that a prediction was made: after
    [predict_action_consequence], [list_locations], [get_location_state],
    [compute_affinity_for_actor], [query_traces],
    [get_world_history_summary] and [export_world_state] return what they
    returned before. *)
Theorem prediction_invisible_to_readers a prediction t_before t_log t_after :
  Adapter.wf a →
  let a' := (predict_action_consequence a prediction t_before t_log t_after).2 in
  list_locations a' = list_locations a
  ∧ (∀ location_id actor_id actor_tags now,
       compute_affinity_for_actor a' location_id actor_id actor_tags now
       = compute_affinity_for_actor a location_id actor_id actor_tags now)
  ∧ (∀ query now, query_traces a' query now = query_traces a query now)
  ∧ (∀ location_id days now,
       get_world_history_summary a' location_id days now
       = get_world_history_summary a location_id days now)
  ∧ (∀ now, export_world_state a' now = export_world_state a now).
Proof.
  intros Hwf. simpl.
  destruct (readers_agree a _ Hwf
              (predict_agree a prediction t_before t_log t_after))
    as (? & _ & ? & ? & ? & ?).
  done.
Qed.

(** The result of a prediction on a present location, in full: the first
    affinity is the one of the committed location, the second the one of
    the copy the event was logged to (computed here on a store that holds
    only that copy). *)
Lemma predict_result_exact a prediction t_before t_log t_after location :
  resolve a (ActionPrediction.location_id prediction) = Some location →
  let location_id := ActionPrediction.location_id prediction in
  let actor_id := ActionPrediction.actor_id prediction in
  let actor_tags := remove_dups (ActionPrediction.actor_tags prediction) in
  let event :=
    AffinityEvent.mk (ActionPrediction.event_type prediction) actor_id
      actor_tags location_id (ActionPrediction.intensity prediction) in
  let after :=
    compute_affinity_for_actor
      (Adapter.mk [(location_id, 0%nat)] [log_event location event t_log])
      location_id actor_id actor_tags t_after in
  (predict_action_consequence a prediction t_before t_log t_after).1
  = Some (ActionConsequence.mk location_id actor_id
            (ActionPrediction.event_type prediction)
            (compute_affinity_for_actor a location_id actor_id actor_tags
               t_before)
            after
            (derive_triggers after (Location.affordances location)).1
            (derive_triggers after (Location.affordances location)).2).
Proof.
  intros Hres. simpl. unfold resolve in Hres.
  destruct (get _ _) as [r|] eqn:Hget; [simpl in Hres|done].
  unfold predict_action_consequence.
  rewrite Hget, (deepcopy_alloc a r location Hres).
  cbv beta iota zeta. rewrite mutate_last. simpl Adapter._locations.
  rewrite Hget.
  match goal with
  | |- context [compute_affinity_for_actor (Adapter.set_location ?b ?i ?t)
                  ?i ?x ?tags ?n] =>
      rewrite (compute_affinity_by_resolve (Adapter.set_location b i t)
                 (Adapter.mk [(i, 0%nat)]
                    [log_event location
                       (AffinityEvent.mk
                          (ActionPrediction.event_type prediction)
                          (ActionPrediction.actor_id prediction)
                          (remove_dups (ActionPrediction.actor_tags prediction))
                          (ActionPrediction.location_id prediction)
                          (ActionPrediction.intensity prediction)) t_log])
                 i i x tags n)
  end.
  2:{ unfold resolve, Adapter.set_location. simpl. rewrite get_set_eq.
      rewrite decide_True by done. simpl. unfold Adapter.deref. simpl.
      by rewrite lookup_app_r, Nat.sub_diag by done. }
  unfold Adapter.deref at 1. simpl Adapter.heap.
  rewrite lookup_app_l by (by eapply lookup_lt_Some).
  unfold Adapter.deref in Hres. rewrite Hres. simpl from_option.
  by destruct (derive_triggers _ _).
Qed.

(** The result of a prediction depends on the adapter through the object
    its location id leads to only. *)
Lemma predict_result_agree a a' prediction t_before t_log t_after :
  Adapter.wf a → agree a a' →
  (predict_action_consequence a' prediction t_before t_log t_after).1
  = (predict_action_consequence a prediction t_before t_log t_after).1.
Proof.
  intros Hwf Hagree.
  pose proof (agree_resolve a a' (ActionPrediction.location_id prediction)
                Hwf Hagree) as Hres.
  destruct (resolve a (ActionPrediction.location_id prediction))
    as [location|] eqn:Ha.
  - rewrite (predict_result_exact a' _ _ _ _ location Hres).
    rewrite (predict_result_exact a _ _ _ _ location Ha).
    simpl. f_equal. f_equal. by apply compute_affinity_by_resolve; rewrite Hres.
  - apply (resolve_None a _ Hwf) in Ha.
    unfold predict_action_consequence. rewrite (proj1 Hagree), Ha. done.
Qed.

(** X8.  Predictions do not add up: a prediction made after any other
    prediction returns what it returns on the untouched adapter. *)
Theorem prediction_is_repeatable a earlier t1 t2 t3 prediction
    t_before t_log t_after :
  Adapter.wf a →
  (predict_action_consequence
     (predict_action_consequence a earlier t1 t2 t3).2
     prediction t_before t_log t_after).1
  = (predict_action_consequence a prediction t_before t_log t_after).1.
Proof.
  intros Hwf. apply predict_result_agree; [done|apply predict_agree].
Qed.

(** X9.  In the consequence of a prediction on a present location,
    [affinity_before] is what [compute_affinity_for_actor] returns on the
    adapter, and [affinity_after] is the affinity of the location with the
    event logged to it (computed on a store that holds only that logged
    copy); both are present. *)
Theorem prediction_affinities a prediction t_before t_log t_after location :
  resolve a (ActionPrediction.location_id prediction) = Some location →
  let location_id := ActionPrediction.location_id prediction in
  let actor_id := ActionPrediction.actor_id prediction in
  let actor_tags := remove_dups (ActionPrediction.actor_tags prediction) in
  let event :=
    AffinityEvent.mk (ActionPrediction.event_type prediction) actor_id
      actor_tags location_id (ActionPrediction.intensity prediction) in
  ∃ consequence,
    (predict_action_consequence a prediction t_before t_log t_after).1
    = Some consequence
    ∧ ActionConsequence.affinity_before consequence
      = compute_affinity_for_actor a location_id actor_id actor_tags t_before
    ∧ ActionConsequence.affinity_after consequence
      = compute_affinity_for_actor
          (Adapter.mk [(location_id, 0%nat)] [log_event location event t_log])
          location_id actor_id actor_tags t_after
    ∧ is_Some (ActionConsequence.affinity_before consequence)
    ∧ is_Some (ActionConsequence.affinity_after consequence).
Proof.
  intros Hres. simpl.
  rewrite (predict_result_exact a _ _ _ _ location Hres). simpl.
  eexists. split; [done|]. simpl. split_and!; [done..| |].
  - by eapply compute_affinity_resolve.
  - eapply compute_affinity_resolve. unfold resolve. simpl.
    by rewrite decide_True.
Qed.

End ReaderFacts.

(* ===================================================================== *)
(** ** More on trace queries *)
(* ===================================================================== *)

Section SortStability.
Context {A : Type} (key : A → Q).

Lemma insert_desc_filter (v : Q) x l :
  filter (λ y, key y == v) (insert_desc key x l)
  = filter (λ y, key y == v) (x :: l).
Proof.
  induction l as [|y l IH]; [done|]. simpl.
  destruct (Qltb (key x) (key y)) eqn:Hxy; [|done].
  apply Qltb_true in Hxy.
  rewrite (filter_cons _ y), IH, !(filter_cons _ x), (filter_cons _ y).
  repeat case_decide; try done.
  match goal with
  | Hx : key x == v, Hy : key y == v |- _ =>
      rewrite Hx, Hy in Hxy; by apply Qlt_irrefl in Hxy
  end.
Qed.

(** The sort is stable: elements with the same key keep their order. *)
Lemma sort_desc_stable (v : Q) l :
  filter (λ y, key y == v) (sort_desc key l) = filter (λ y, key y == v) l.
Proof.
  induction l as [|x l IH]; [done|]. simpl.
  by rewrite insert_desc_filter, !filter_cons, IH.
Qed.
End SortStability.

Section QueryExtras.
Context `{WorldAffinity}.
Implicit Types (a : Adapter.t) (query : TraceQuery.t).

Lemma query_traces_candidates a query now :
  query_traces a query now
  = match scanned_locations a query with
    | Raise e => Raise e
    | Ok locations =>
        Ok (slice_to (sort_desc TraceInfo.decayed_value
                        (candidates a query now locations))
              (TraceQuery.limit query))
    end.
Proof.
  unfold query_traces. destruct (scanned_locations a query); [|done].
  by rewrite collect_traces_candidates.
Qed.

(** Two queries that accept the same traces have the same candidates. *)
Lemma candidates_ext a query query' now locations :
  (∀ x, trace_matches query x = trace_matches query' x) →
  candidates a query now locations = candidates a query' now locations.
Proof.
  intros Hm. unfold candidates.
  induction (omap (Adapter.deref a) locations) as [|l ls IH]; [done|].
  rewrite !bind_cons, IH. f_equal. f_equal.
  apply list_filter_iff. intros x. by rewrite Hm.
Qed.

Lemma slice_to_take {A} (xs : list A) (stop : Z) :
  ∃ n, slice_to xs stop = take n xs.
Proof. unfold slice_to. destruct (_ <? _)%Z; by eexists. Qed.

Lemma filter_ext_in {A} (P Q : A → Prop) `{∀ x, Decision (P x)}
    `{∀ x, Decision (Q x)} (l : list A) :
  (∀ x, x ∈ l → P x ↔ Q x) → filter P l = filter Q l.
Proof.
  induction l as [|x l IH]; intros Hl; [done|].
  rewrite !filter_cons, IH by (intros y ?; apply Hl; by right).
  pose proof (Hl x (list_elem_of_here _ _)).
  repeat case_decide; naive_solver.
Qed.

Lemma candidates_ext_in a query query' now locations :
  (∀ location x, x ∈ all_traces location now →
                 trace_matches query x = trace_matches query' x) →
  candidates a query now locations = candidates a query' now locations.
Proof.
  intros Hm. unfold candidates.
  induction (omap (Adapter.deref a) locations) as [|l ls IH]; [done|].
  rewrite !bind_cons, IH. f_equal. f_equal.
  apply filter_ext_in. intros x Hx. by rewrite (Hm l x Hx).
Qed.

(** The entries of [all_traces]: only personal traces carry an actor, and
    the channel is one of the three names. *)
Lemma all_traces_entry location now actor event_type info :
  (actor, event_type, info) ∈ all_traces location now →
  (TraceInfo.channel info = "personal" ∧ is_Some actor)
  ∨ (TraceInfo.channel info ∈ ["group"; "behavior"] ∧ actor = None).
Proof.
  unfold all_traces. rewrite !elem_of_app, !list_elem_of_fmap.
  intros [([[a e] t] & Hx & _)|[([[a e] t] & Hx & _)|([e t] & Hx & _)]];
    simpl in Hx; injection Hx as -> -> ->; simpl.
  - left. by eauto.
  - right. split; [|done]. set_solver.
  - right. split; [|done]. set_solver.
Qed.

(** X10.  The actor filter applies to personal traces only: a query for the
    group or the behavior channel returns the same traces whatever its
    [actor_id]. *)
Theorem query_actor_filter_personal_only a query actor_id' now :
  TraceQuery.channel query = Some GROUP
  ∨ TraceQuery.channel query = Some BEHAVIOR →
  query_traces a
    (TraceQuery.mk (TraceQuery.location_id query) actor_id'
       (TraceQuery.event_type query) (TraceQuery.channel query)
       (TraceQuery.min_intensity query) (TraceQuery.limit query)) now
  = query_traces a query now.
Proof.
  intros Hchannel. rewrite !query_traces_candidates.
  change (scanned_locations a (TraceQuery.mk _ _ _ _ _ _))
    with (scanned_locations a query).
  destruct (scanned_locations a query) as [locations|e]; [|done].
  simpl TraceQuery.limit. f_equal. f_equal. f_equal.
  apply candidates_ext_in. intros location [[actor event_type] info] Hx.
  apply all_traces_entry in Hx as [[Hc [actor_id ->]]|[_ ->]];
    unfold trace_matches; simpl; [|done].
  rewrite Hc. destruct Hchannel as [-> | ->]; reflexivity.
Qed.

(** X11.  A filter that is the empty string is as good as absent: replacing
    an empty [location_id], [actor_id] or [event_type] by [None] does not
    change the answer; in particular an empty [location_id] scans every
    location instead of raising. *)
Theorem query_empty_filters_are_absent a query now :
  let norm (o : option string) := if str_truthy o then o else None in
  query_traces a
    (TraceQuery.mk (norm (TraceQuery.location_id query))
       (norm (TraceQuery.actor_id query)) (norm (TraceQuery.event_type query))
       (TraceQuery.channel query) (TraceQuery.min_intensity query)
       (TraceQuery.limit query)) now
  = query_traces a query now.
Proof.
  simpl. rewrite !query_traces_candidates.
  assert (Hnorm : ∀ o x,
            filter_rejects (if str_truthy o then o else None) x
            = filter_rejects o x).
  { intros o x. unfold filter_rejects.
    destruct (str_truthy o) eqn:Ho; [by rewrite Ho|done]. }
  match goal with
  | |- match ?s with _ => _ end = _ =>
      assert (s = scanned_locations a query) as ->
  end.
  { unfold scanned_locations. cbn [TraceQuery.location_id].
    destruct (TraceQuery.location_id query) as [id|]; [|done].
    destruct (str_truthy (Some id)) eqn:Hid; [|done]. by rewrite Hid. }
  destruct (scanned_locations a query) as [locations|e]; [|done].
  simpl TraceQuery.limit. f_equal. f_equal. f_equal.
  apply candidates_ext. intros [[actor event_type] info].
  unfold trace_matches. simpl. rewrite Hnorm.
  destruct actor; by rewrite ?Hnorm.
Qed.

(** X12.  Ties are broken by scan order: among the returned traces, those
    with one and the same decayed value come in the order in which the
    loops found them (locations in store order; personal, then group, then
    behavior traces; each map in its own order). *)
Theorem query_ties_in_scan_order a query now :
  match scanned_locations a query with
  | Raise e => query_traces a query now = Raise e
  | Ok locations =>
      ∃ results,
        query_traces a query now = Ok results
        ∧ ∀ v, filter (λ t, TraceInfo.decayed_value t == v) results
               `prefix_of`
               filter (λ t, TraceInfo.decayed_value t == v)
                 (candidates a query now locations)
  end.
Proof.
  rewrite query_traces_candidates.
  destruct (scanned_locations a query) as [locations|e]; [|done].
  eexists. split; [done|]. intros v.
  destruct (slice_to_take
              (sort_desc TraceInfo.decayed_value
                 (candidates a query now locations))
              (TraceQuery.limit query)) as [n ->].
  rewrite <- (sort_desc_stable TraceInfo.decayed_value v
                (candidates a query now locations)).
  set (sorted := sort_desc _ _).
  rewrite <- (take_drop n sorted) at 2. rewrite filter_app.
  by apply prefix_app_r.
Qed.

(** X13.  The three ways [limit] cuts the sorted matches: [limit = 0] returns
    nothing; a [limit] of at least the number of matches returns all of
    them; a negative [limit] [-k] returns all but the [k] smallest. *)
Theorem query_limit_cases a query now locations :
  scanned_locations a query = Ok locations →
  let matches := candidates a query now locations in
  let sorted := sort_desc TraceInfo.decayed_value matches in
  let limit := TraceQuery.limit query in
  (limit = 0%Z → query_traces a query now = Ok [])
  ∧ ((Z.of_nat (length matches) ≤ limit)%Z →
     query_traces a query now = Ok sorted ∧ sorted ≡ₚ matches)
  ∧ ((limit < 0)%Z →
     query_traces a query now
     = Ok (take (length matches - Z.to_nat (- limit)) sorted)).
Proof.
  intros Hscan. simpl. rewrite query_traces_candidates, Hscan.
  unfold slice_to. split_and!.
  - intros ->. done.
  - intros Hlen. rewrite (proj2 (Z.ltb_ge _ _)) by lia.
    rewrite take_ge by (rewrite sort_desc_length; lia).
    split; [done|apply sort_desc_perm].
  - intros Hneg. rewrite (proj2 (Z.ltb_lt _ _) Hneg), sort_desc_length.
    do 2 f_equal. lia.
Qed.

(** X14.  Every returned trace belongs to the requested channel, and without
    a channel filter to one of the three channels. *)
Theorem query_results_channel a query now :
  match scanned_locations a query with
  | Raise e => query_traces a query now = Raise e
  | Ok _ =>
      ∃ results,
        query_traces a query now = Ok results
        ∧ Forall (λ t, TraceInfo.channel t ∈ ["personal"; "group"; "behavior"]
                       ∧ ∀ c, TraceQuery.channel query = Some c →
                              TraceInfo.channel t = DecayChannel_value c)
            results
  end.
Proof.
  rewrite query_traces_candidates.
  destruct (scanned_locations a query) as [locations|e]; [|done].
  eexists. split; [done|].
  destruct (slice_to_take
              (sort_desc TraceInfo.decayed_value
                 (candidates a query now locations))
              (TraceQuery.limit query)) as [n ->].
  apply Forall_take. rewrite sort_desc_perm.
  unfold candidates. apply Forall_forall. intros t Ht.
  apply list_elem_of_bind in Ht as (location & Ht & _).
  apply list_elem_of_fmap in Ht as ([[actor event_type] info] & -> & Hin).
  apply list_elem_of_filter in Hin as [Hm Hin]. simpl. split.
  - apply all_traces_entry in Hin as [[-> _]|[? _]]; set_solver.
  - intros c Hc. unfold trace_matches in Hm. rewrite Hc in Hm. simpl in Hm.
    repeat (apply andb_prop in Hm as [Hm _]).
    symmetry. by apply String.eqb_eq.
Qed.

End QueryExtras.

(* ===================================================================== *)
(** ** More on location states *)
(* ===================================================================== *)

Section StateExtras.
Context `{WorldAffinity}.
Implicit Types (a : Adapter.t).

Lemma foldl_snoc_fmap {A B} (step : list B → A → list B) (f : A → B)
    (l : list A) (acc : list B) :
  (∀ acc x, step acc x = acc ++ [f x]) →
  foldl step acc l = acc ++ (f <$> l).
Proof.
  intros Hstep. revert acc. induction l as [|x l IH]; intros acc; simpl.
  - by rewrite app_nil_r.
  - by rewrite Hstep, IH, <- app_assoc.
Qed.

(** The traces of a location state: one entry per stored trace, personal
    traces first, then group, then behavior traces, each map in its own
    order; decayed to the clock reading when [decay_to_now] is set. *)
Lemma state_traces_decayed query location now :
  LocationQuery.decay_to_now query = true →
  state_traces query location now = snd <$> all_traces location now.
Proof.
  intros Hdecay. unfold state_traces, all_traces, items. rewrite Hdecay.
  rewrite !fmap_app, <- !list_fmap_compose.
  rewrite (foldl_snoc_fmap _ (snd ∘ personal_entry now)
             (Location.personal_traces location))
    by (intros acc [[??]?]; reflexivity).
  rewrite (foldl_snoc_fmap _ (snd ∘ group_entry now)
             (Location.group_traces location))
    by (intros acc [[??]?]; reflexivity).
  rewrite (foldl_snoc_fmap _ (snd ∘ behavior_entry now)
             (Location.behavior_traces location))
    by (intros acc [??]; reflexivity).
  by rewrite app_assoc.
Qed.

(** X15.  With traces included, a location state lists every stored trace
    exactly once: as many entries as the three trace maps hold together,
    the personal ones first, then the group ones, then the behavior ones.
    A personal or group trace is listed under the key
    ["(actor, event_type)"] the f-string gives it ([pair_key]), a behavior
    trace under its event type, each with its accumulated value. *)
Theorem state_lists_every_trace a query now location :
  resolve a (LocationQuery.location_id query) = Some location →
  LocationQuery.include_traces query = true →
  ∃ state,
    get_location_state a query now = Some state
    ∧ TraceInfo.channel <$> LocationState.traces state
      = replicate (length (Location.personal_traces location)) "personal"
        ++ replicate (length (Location.group_traces location)) "group"
        ++ replicate (length (Location.behavior_traces location)) "behavior"
    ∧ TraceInfo.key <$> LocationState.traces state
      = ((λ kt, pair_key kt.1.1 kt.1.2) <$> Location.personal_traces location)
        ++ ((λ kt, pair_key kt.1.1 kt.1.2) <$> Location.group_traces location)
        ++ (fst <$> Location.behavior_traces location)
    ∧ (TraceInfo.accumulated <$> LocationState.traces state)
      = (TraceRecord.accumulated ∘ snd <$> Location.personal_traces location)
        ++ (TraceRecord.accumulated ∘ snd <$> Location.group_traces location)
        ++ (TraceRecord.accumulated ∘ snd
              <$> Location.behavior_traces location).
Proof.
  intros Hres Htraces. unfold get_location_state.
  unfold resolve in Hres. rewrite Hres, Htraces.
  eexists. split; [done|]. simpl. unfold state_traces, items.
  set (decay := λ hl trace, if LocationQuery.decay_to_now query
                            then get_decayed_value trace hl now
                            else TraceRecord.accumulated trace).
  rewrite (foldl_snoc_fmap _
             (λ kt, mk_trace_info (pair_key kt.1.1 kt.1.2) "personal" kt.2
                      (decay personal_hl kt.2))
             (Location.personal_traces location))
    by (intros acc [[??]?]; reflexivity).
  rewrite (foldl_snoc_fmap _
             (λ kt, mk_trace_info (pair_key kt.1.1 kt.1.2) "group" kt.2
                      (decay group_hl kt.2))
             (Location.group_traces location))
    by (intros acc [[??]?]; reflexivity).
  rewrite (foldl_snoc_fmap _
             (λ kt : string * TraceRecord.t,
                mk_trace_info kt.1 "behavior" kt.2 (decay behavior_hl kt.2))
             (Location.behavior_traces location))
    by (intros acc [??]; reflexivity).
  simpl. rewrite !fmap_app, <- !list_fmap_compose, <- !app_assoc.
  split_and!.
  - assert (Hconst : ∀ {A} (f : A → string) c (l : list A),
              (∀ x, f x = c) → f <$> l = replicate (length l) c).
    { intros A f c l Hf. induction l as [|x l IH]; [done|].
      rewrite fmap_cons, Hf, IH. done. }
    f_equal; [|f_equal]; by apply Hconst.
  - repeat f_equal.
  - done.
Qed.

(** X16.  With [decay_to_now] off no decay is applied: every trace of the
    state reports its accumulated value as its decayed value. *)
Theorem state_without_decay a query now :
  LocationQuery.decay_to_now query = false →
  match get_location_state a query now with
  | None => resolve a (LocationQuery.location_id query) = None
  | Some state =>
      Forall (λ t, TraceInfo.decayed_value t = TraceInfo.accumulated t)
        (LocationState.traces state)
  end.
Proof.
  intros Hdecay. unfold get_location_state, resolve.
  destruct (_ ≫= _) as [location|]; [|done]. simpl.
  destruct (LocationQuery.include_traces query); [|constructor].
  unfold state_traces, items. rewrite Hdecay.
  rewrite (foldl_snoc_fmap _
             (λ kt, mk_trace_info (pair_key kt.1.1 kt.1.2) "personal" kt.2
                      (TraceRecord.accumulated kt.2))
             (Location.personal_traces location))
    by (intros acc [[??]?]; reflexivity).
  rewrite (foldl_snoc_fmap _
             (λ kt, mk_trace_info (pair_key kt.1.1 kt.1.2) "group" kt.2
                      (TraceRecord.accumulated kt.2))
             (Location.group_traces location))
    by (intros acc [[??]?]; reflexivity).
  rewrite (foldl_snoc_fmap _
             (λ kt : string * TraceRecord.t,
                mk_trace_info kt.1 "behavior" kt.2
                  (TraceRecord.accumulated kt.2))
             (Location.behavior_traces location))
    by (intros acc [??]; reflexivity).
  simpl. rewrite !Forall_app, !Forall_fmap. split_and!;
    by apply Forall_true.
Qed.

(** X17.  A trace query never reports a trace that [get_location_state] does
    not list: for a present location and the same clock reading, every
    trace returned by a query restricted to that location appears, with
    the same values, among the traces of the location state. *)
Theorem query_results_in_location_state a query now location_id location :
  TraceQuery.location_id query = Some location_id → location_id ≠ "" →
  resolve a location_id = Some location →
  ∃ results state,
    query_traces a query now = Ok results
    ∧ get_location_state a (LocationQuery.of_id location_id) now = Some state
    ∧ results ⊆ LocationState.traces state.
Proof.
  intros Hid Hne Hres. rewrite query_traces_candidates.
  unfold scanned_locations, get_location_state. rewrite Hid. simpl.
  rewrite (proj2 (String.eqb_neq _ _) Hne). simpl.
  unfold resolve in Hres.
  destruct (get _ location_id) as [r|] eqn:Hget; [simpl in Hres|done].
  simpl. rewrite Hres. eexists _, _. split; [done|]. split; [done|]. simpl.
  rewrite state_traces_decayed by done.
  destruct (slice_to_take
              (sort_desc TraceInfo.decayed_value
                 (candidates a query now [r]))
              (TraceQuery.limit query)) as [n ->].
  intros t Ht. apply subseteq_take in Ht. rewrite sort_desc_perm in Ht.
  unfold candidates in Ht. simpl in Ht. rewrite Hres in Ht. simpl in Ht.
  rewrite app_nil_r in Ht.
  apply list_elem_of_fmap in Ht as (x & -> & Hin).
  apply list_elem_of_filter in Hin as [_ Hin].
  apply list_elem_of_fmap. by exists x.
Qed.


End StateExtras.

(* ===================================================================== *)
(** ** More on history summaries and exports *)
(* ===================================================================== *)

Section HistoryExtras.
Context `{WorldAffinity}.
Implicit Types (a : Adapter.t).

Lemma Qgtb_true (x y : Q) : Qgtb x y = true ↔ y < x.
Proof. apply Qltb_true. Qed.

(** The literals of the mood table. *)
Lemma literal_half : literal 0.5 = Finite (1 # 2).
Proof. by vm_compute. Qed.

Lemma literal_one : literal 1.0 = Finite 1.
Proof. by vm_compute. Qed.

Lemma literal_three_tenths :
  literal 0.3 = Finite (5404319552844595 # 18014398509481984).
Proof. by vm_compute. Qed.

Lemma float_le_not_lt (x y : float) : float_le x y ↔ ¬ float_lt y x.
Proof.
  unfold float_le, float_lt, fleb. destruct (fltb y x); naive_solver.
Qed.

(** A total of at least 1.0 exceeds 0.5, and one that exceeds 0.5 exceeds
    0.3. *)
Lemma float_one_half (x : float) :
  float_le (literal 1.0) x → float_lt (literal 0.5) x.
Proof.
  rewrite literal_one, literal_half. unfold float_le, float_lt, fleb.
  destruct x as [q|[|]]; simpl; [|done..].
  rewrite negb_true_iff, Qltb_true, Qltb_false. lra.
Qed.

Lemma float_half_three_tenths (x : float) :
  float_lt (literal 0.5) x → float_lt (literal 0.3) x.
Proof.
  rewrite literal_half, literal_three_tenths. unfold float_lt.
  destruct x as [q|[|]]; simpl; [|done..].
  rewrite !Qltb_true. lra.
Qed.

(** The summary of a present location, with the totals of the three
    behavior categories the mood and the seeds are computed from. *)
Lemma history_summary_totals a location_id days now location cutoff :
  resolve a location_id = Some location →
  history_cutoff now days = Ok cutoff →
  let total := category_total cutoff (Location.behavior_traces location) in
  ∃ summary,
    get_world_history_summary a location_id days now = Ok (Some summary)
    ∧ WorldHistorySummary.mood summary
      = determine_mood (total "harm") (total "offer") (total "create")
    ∧ WorldHistorySummary.folklore_seeds summary
      = generate_folklore_seeds location (total "harm") (total "offer")
          (total "create").
Proof.
  intros Hres Hcut. simpl. unfold get_world_history_summary.
  unfold resolve in Hres. rewrite Hres, Hcut.
  destruct (scan_personal _ _) as [dominant_events notable_actors].
  eexists. split; [done|]. simpl. by rewrite !scan_behavior_total.
Qed.

(** X19.  The mood in terms of the category totals, which are float sums:
    "violent" exactly when the harm total is at least 1.0, "troubled" when
    it lies strictly between 0.5 and 1.0, "sacred" when harm is at most 0.5
    and the offer total exceeds 0.5, "peaceful" otherwise.  The create
    total has no influence on the mood. *)
Theorem history_mood_cases a location_id days now location cutoff :
  resolve a location_id = Some location →
  history_cutoff now days = Ok cutoff →
  let harm := category_total cutoff (Location.behavior_traces location) "harm" in
  let offer :=
    category_total cutoff (Location.behavior_traces location) "offer" in
  ∃ summary,
    get_world_history_summary a location_id days now = Ok (Some summary)
    ∧ (WorldHistorySummary.mood summary = "violent"
       ↔ float_le (literal 1.0) harm)
    ∧ (WorldHistorySummary.mood summary = "troubled"
       ↔ float_lt (literal 0.5) harm ∧ float_lt harm (literal 1.0))
    ∧ (WorldHistorySummary.mood summary = "sacred"
       ↔ float_le harm (literal 0.5) ∧ float_lt (literal 0.5) offer)
    ∧ (WorldHistorySummary.mood summary = "peaceful"
       ↔ float_le harm (literal 0.5) ∧ float_le offer (literal 0.5)).
Proof.
  intros Hres Hcut. cbv zeta.
  destruct (history_summary_totals a location_id days now location cutoff
              Hres Hcut) as (summary & Hs & Hm & _).
  exists summary. split; [done|]. rewrite Hm. clear Hs Hm.
  set (harm := category_total _ _ "harm").
  set (offer := category_total _ _ "offer").
  set (create := category_total _ _ "create").
  pose proof (float_one_half harm) as Hone.
  pose proof (float_half_three_tenths offer) as Hthird.
  rewrite !float_le_not_lt in *. unfold float_lt in *.
  unfold determine_mood, fgtb.
  destruct (fltb (literal 0.5) harm), (fltb harm (literal 1.0)),
    (fltb (literal 0.3) offer), (fltb (literal 0.3) create),
    (fltb (literal 0.5) offer); simpl; naive_solver.
Qed.

(** The seed about harm never coincides with one of the fixed seeds. *)
Lemma harm_seed_distinct (name : string) :
  let seed := "The " +:+ name +:+ " remembers those who brought harm" in
  seed ≠ "Fire is forbidden in these parts"
  ∧ seed ≠ "Travelers who leave offerings find easier paths"
  ∧ seed ≠ "Those who plant and tend are welcomed".
Proof.
  cbv zeta. split_and!; intros Heq; cbv [String.append] in Heq; congruence.
Qed.

(** [str.lower] keeps the length of a string, changes no character that is
    not an upper-case letter, and leaves no upper-case letter of the
    alphabet behind. *)
Lemma lower_length (s : string) : String.length (lower s) = String.length s.
Proof. induction s; simpl; congruence. Qed.

Lemma lower_char_idemp (c : ascii) : lower_char (lower_char c) = lower_char c.
Proof. by destruct c as [[] [] [] [] [] [] [] []]. Qed.

Lemma lower_idemp (s : string) : lower (lower s) = lower s.
Proof.
  induction s as [|c s IH]; simpl; [done|]. by rewrite lower_char_idemp, IH.
Qed.

Lemma lower_no_capital (s : string) (c : ascii) :
  c ∈ list_ascii_of_string (lower s) →
  ¬ (65 ≤ nat_of_ascii c ≤ 90)%nat.
Proof.
  induction s as [|c' s IH]; simpl; [by intros []%elem_of_nil|].
  intros [->|Hin]%elem_of_cons; [|by apply IH].
  clear. destruct c' as [[] [] [] [] [] [] [] []]; vm_compute; lia.
Qed.

(** X20.  Which folklore seeds a summary carries: the seed about harm,
    with the name of the location in lower case, when the in-window harm
    total is positive and the location values harm negatively; the seed
    about fire when the location values [harm.fire] below -0.5, whatever
    happened; the seed about offerings when the offer total is positive;
    the seed about planting when the create total is positive.  There are
    at most four seeds. *)
Theorem history_folklore_seeds a location_id days now location cutoff :
  resolve a location_id = Some location →
  history_cutoff now days = Ok cutoff →
  let total := category_total cutoff (Location.behavior_traces location) in
  let valuation k := default 0 (get (Location.valuation_profile location) k) in
  ∃ summary,
    get_world_history_summary a location_id days now = Ok (Some summary)
    ∧ let seeds := WorldHistorySummary.folklore_seeds summary in
      ("The " +:+ lower (Location.name location)
         +:+ " remembers those who brought harm" ∈ seeds
       ↔ float_lt (Finite 0) (total "harm") ∧ valuation "harm" < 0)
      ∧ ("Fire is forbidden in these parts" ∈ seeds
         ↔ valuation "harm.fire" < -0.5)
      ∧ ("Travelers who leave offerings find easier paths" ∈ seeds
         ↔ float_lt (Finite 0) (total "offer"))
      ∧ ("Those who plant and tend are welcomed" ∈ seeds
         ↔ float_lt (Finite 0) (total "create"))
      ∧ (length seeds ≤ 4)%nat.
Proof.
  intros Hres Hcut. cbv zeta.
  destruct (history_summary_totals a location_id days now location cutoff
              Hres Hcut) as (summary & Hs & _ & Hseeds).
  exists summary. split; [done|]. rewrite Hseeds. clear Hs Hseeds.
  set (harm := category_total _ _ "harm").
  set (offer := category_total _ _ "offer").
  set (create := category_total _ _ "create").
  destruct (harm_seed_distinct (lower (Location.name location)))
    as (Hfire & Hoffer & Hcreate).
  unfold generate_folklore_seeds, fgtb, float_lt.
  destruct (fltb (Finite 0) harm) eqn:H1;
    destruct (Qltb (default 0 (get (Location.valuation_profile location)
                                  "harm")) 0) eqn:H2;
    destruct (Qltb (default 0 (get (Location.valuation_profile location)
                                  "harm.fire")) (-0.5)) eqn:H3;
    destruct (fltb (Finite 0) offer) eqn:H4;
    destruct (fltb (Finite 0) create) eqn:H5; simpl.
  all: repeat match goal with
       | Hb : Qltb _ _ = true |- _ => apply Qltb_true in Hb
       | Hb : Qltb _ _ = false |- _ => apply Qltb_false in Hb
       end.
  all: rewrite ?elem_of_cons, ?elem_of_nil.
  all: split_and!; [..|lia];
    (split; [intros Hin; destruct_or?; try done; try (split; [done|lra]);
             try lra
            |intros Hp; destruct_and?; try (by eauto 6); try done;
             exfalso; lra]).
Qed.

Lemma scan_personal_none cutoff
    (traces : dict (string * string) TraceRecord.t) :
  Forall (λ kt, float_lt (Finite (TraceRecord.last_updated kt.2)) cutoff)
    traces →
  scan_personal cutoff traces = ([], []).
Proof.
  unfold scan_personal, items. generalize (@nil DominantEvent.t, @nil string).
  intros acc Hall. revert acc.
  induction Hall as [|[[actor_id event_type] trace] traces Hold _ IH];
    intros acc; [done|].
  simpl. destruct acc as [events actors]. simpl in Hold.
  unfold fgeb, fleb. unfold float_lt in Hold. rewrite Hold. apply IH.
Qed.

Lemma scan_behavior_none cutoff (traces : dict string TraceRecord.t) :
  Forall (λ kt, float_lt (Finite (TraceRecord.last_updated kt.2)) cutoff)
    traces →
  scan_behavior cutoff traces = [].
Proof.
  unfold scan_behavior, items. generalize (@nil (string * float)).
  intros acc Hall. revert acc.
  induction Hall as [|[event_type trace] traces Hold _ IH]; intros acc; [done|].
  simpl. simpl in Hold.
  unfold fgeb, fleb. unfold float_lt in Hold. rewrite Hold. apply IH.
Qed.

(** X21.  A window without events: when no personal and no behavior trace
    of a present location was updated at or after the cutoff (in particular
    when the location has no traces), the summary has no dominant events
    and no notable actors, its mood is "peaceful", and its only possible
    seed is the one about fire, which depends on the valuation alone. *)
Theorem history_quiet_window a location_id days now location cutoff :
  resolve a location_id = Some location →
  history_cutoff now days = Ok cutoff →
  Forall (λ kt, float_lt (Finite (TraceRecord.last_updated kt.2)) cutoff)
    (Location.personal_traces location) →
  Forall (λ kt, float_lt (Finite (TraceRecord.last_updated kt.2)) cutoff)
    (Location.behavior_traces location) →
  get_world_history_summary a location_id days now
  = Ok (Some (WorldHistorySummary.mk location_id days [] [] "peaceful"
                (if Qltb (default 0 (get (Location.valuation_profile location)
                                       "harm.fire")) (-0.5)
                 then ["Fire is forbidden in these parts"] else []))).
Proof.
  intros Hres Hcut Hp Hb. unfold get_world_history_summary.
  unfold resolve in Hres. rewrite Hres, Hcut.
  rewrite (scan_personal_none _ _ Hp), (scan_behavior_none _ _ Hb).
  rewrite (proj1 (Permutation_nil_r _) (list_of_set_perm [])).
  assert (determine_mood (Finite 0) (Finite 0) (Finite 0) = "peaceful") as Hmood
    by (by vm_compute).
  cbn [get default]. rewrite Hmood.
  unfold generate_folklore_seeds. cbn [fgtb fltb Qltb Qle_bool andb].
  simpl.
  by destruct (Qltb (default 0 (get (Location.valuation_profile location)
                                  "harm.fire")) (-0.5)).
Qed.

(** X22.  Looking an id up in the export gives the exported form of its
    location state: [export_world_state()[id]] holds the fields of
    [get_location_state(id)], and an id with no state has no entry. *)
Theorem export_lookup a now location_id :
  get (export_world_state a now) location_id
  = export_entry
    <$> get_location_state a (LocationQuery.of_id location_id) now.
Proof.
  unfold export_world_state, items.
  assert (Hloop : ∀ (todo : list (string * nat))
                    (export : dict string ExportEntry.t),
    get (foldl (λ export '(loc_id, _),
                  match get_location_state a (LocationQuery.of_id loc_id) now
                  with
                  | Some state => set export loc_id (export_entry state)
                  | None => export
                  end) export todo) location_id
    = match (if decide (location_id ∈ keys todo)
             then get_location_state a (LocationQuery.of_id location_id) now
             else None) with
      | Some state => Some (export_entry state)
      | None => get export location_id
      end).
  { induction todo as [|[loc_id r] todo IH]; intros export; [done|].
    simpl foldl. rewrite IH.
    change (keys ((loc_id, r) :: todo)) with (loc_id :: keys todo).
    destruct (decide (location_id ∈ keys todo)) as [Hin|Hnotin].
    - rewrite decide_True by (by right).
      destruct (get_location_state a (LocationQuery.of_id location_id) now)
        as [state|] eqn:Hstate; [done|].
      destruct (decide (loc_id = location_id)) as [->|Hne].
      + by rewrite Hstate.
      + destruct (get_location_state a (LocationQuery.of_id loc_id) now);
          [by rewrite get_set_ne|done].
    - destruct (decide (loc_id = location_id)) as [->|Hne].
      + rewrite decide_True by (by left).
        destruct (get_location_state a (LocationQuery.of_id location_id) now);
          [by rewrite get_set_eq|done].
      + rewrite decide_False by (by intros [?|?]%elem_of_cons).
        destruct (get_location_state a (LocationQuery.of_id loc_id) now);
          [by rewrite get_set_ne|done]. }
  rewrite Hloop. case_decide as Hin.
  - by destruct (get_location_state _ _ _).
  - apply get_None in Hin. unfold get_location_state. simpl.
    by rewrite Hin.
Qed.

End HistoryExtras.

(* ===================================================================== *)
(** ** The tool layer and the Lambda entry point *)
(* ===================================================================== *)

Lemma prefix_app (p s : string) :
  String.prefix p s = true → ∃ rest, s = p +:+ rest.
Proof.
  revert s. induction p as [|c p IH]; intros s.
  - by exists s.
  - destruct s as [|c' s]; simpl; [done|].
    destruct (ascii_dec c c') as [<-|]; [|done].
    intros [rest ->]%IH. by exists rest.
Qed.

Lemma chars_app (p s : string) :
  list_ascii_of_string (p +:+ s)
  = list_ascii_of_string p ++ list_ascii_of_string s.
Proof.
  induction p as [|c p IH]; [done|].
  change (String c p +:+ s) with (String c (p +:+ s)). simpl. by rewrite IH.
Qed.

(** Replacing [old] changes nothing in a string that lacks one of the
    characters of [old]. *)
Lemma replace_from_absent (old new s : string) (c : ascii) :
  c ∈ list_ascii_of_string old → c ∉ list_ascii_of_string s →
  replace_from old new 0 s = s.
Proof.
  intros Hold. induction s as [|c' s IH]; intros Hs; [done|].
  cbn [replace_from].
  destruct (String.prefix old (String c' s)) eqn:Hp.
  - apply prefix_app in Hp as [rest Hrest]. destruct Hs.
    rewrite Hrest, chars_app. apply elem_of_app. by left.
  - f_equal. apply IH. intros Hin. apply Hs. simpl. by right.
Qed.

Lemma prefix_app_self (p s : string) : String.prefix p (p +:+ s) = true.
Proof.
  induction p as [|c p IH]; [by destruct s|].
  change (String c p +:+ s) with (String c (p +:+ s)). simpl.
  by destruct (ascii_dec c c).
Qed.

Lemma replace_from_skip (old new p s : string) :
  replace_from old new (String.length p) (p +:+ s) = replace_from old new 0 s.
Proof.
  induction p as [|c p IH]; [done|].
  change (String c p +:+ s) with (String c (p +:+ s)). simpl. apply IH.
Qed.

(** Replacing [old] in a string that starts with [old] and has no further
    occurrence puts [new] in front of the rest. *)
Lemma str_replace_prefix (old new s : string) (c : ascii) :
  old ≠ "" → c ∈ list_ascii_of_string old → c ∉ list_ascii_of_string s →
  str_replace old new (old +:+ s) = new +:+ s.
Proof.
  intros Hne Hold Hs. unfold str_replace.
  destruct old as [|c0 old']; [done|].
  change (String c0 old' +:+ s) with (String c0 (old' +:+ s)).
  cbn [replace_from].
  change (String c0 (old' +:+ s)) with (String c0 old' +:+ s).
  rewrite prefix_app_self. f_equal.
  change (String.length (String c0 old') - 1)%nat
    with (String.length old' - 0)%nat.
  rewrite Nat.sub_0_r, replace_from_skip.
  by apply (replace_from_absent _ _ _ c).
Qed.

(** A location URI names the location whose id follows the scheme. *)
Lemma replace_location_uri (location_id : string) :
  ":"%char ∉ list_ascii_of_string location_id →
  str_replace "location://" "" ("location://" +:+ location_id) = location_id.
Proof.
  intros Hid. rewrite (str_replace_prefix _ _ _ ":"); [done..| |done].
  vm_compute. set_solver.
Qed.

Lemma split_dot_head_no_dot (s : string) :
  "."%char ∉ list_ascii_of_string s → split_dot_head s = s.
Proof.
  induction s as [|c s IH]; [done|]. simpl.
  intros [Hc Hs]%not_elem_of_cons.
  destruct (Ascii.eqb_spec c ".") as [->|_]; [done|]. by rewrite IH.
Qed.

Section ToolExtras.
Context `{WorldAffinity}.
Variable admin_get_registry : dict string bool.
Implicit Types (a : Adapter.t).

(** X24.  An event type without a ['.'] is never resolved through its
    category: [explain_valuation] answers "exact" when the profile has the
    event type and "default" with weight 0.0 otherwise. *)
Theorem explain_valuation_without_dot a location_id event_type location :
  resolve a location_id = Some location →
  "."%char ∉ list_ascii_of_string event_type →
  let entry := get (Location.valuation_profile location) event_type in
  explain_valuation a location_id event_type
  = ToolOk (match entry with
            | Some weight =>
                Valuation.mk event_type weight "exact" None
                  (Some ("Location has explicit valuation for '"
                         +:+ event_type +:+ "'"))
            | None =>
                Valuation.mk event_type 0.0 "default" None
                  (Some "No valuation found; neutral (0.0) applied")
            end)
  ∧ handle_explain_valuation a location_id event_type
    = ToolOk (match entry with
              | Some weight => Valuation.mk event_type weight "exact" None None
              | None => Valuation.mk event_type 0.0 "default" None None
              end).
Proof.
  intros Hres Hdot. simpl.
  unfold explain_valuation, handle_explain_valuation, get_location.
  unfold resolve in Hres. rewrite Hres, (split_dot_head_no_dot _ Hdot).
  by destruct (get (Location.valuation_profile location) event_type).
Qed.

(** X25.  A channel name that is not one of the three is rejected before the
    store is consulted: the tool answers with the single error entry even
    when the location filter names an unknown location, and the Lambda
    handler lets the [ValueError] out. *)
Theorem invalid_channel_rejected_first a method uri location_id actor_id
    event_type channel min_intensity limit arguments now t_log t_after :
  channel ≠ "" → DecayChannel_of_value channel = None →
  ToolArguments.channel arguments = Some channel →
  tool_query_traces a location_id actor_id event_type (Some channel)
    min_intensity limit now
  = Ok [ToolError ("Invalid channel '" +:+ channel
                   +:+ "'. Use: personal, group, behavior")]
  ∧ _handle_tool_call admin_get_registry a method
      (Params.mk (Some "query_traces") (Some arguments) uri) now t_log t_after
    = (LRaise (LValueError channel), a).
Proof.
  intros Hne Hbad Harg. apply String.eqb_neq in Hne.
  unfold tool_query_traces, _handle_tool_call. simpl.
  by rewrite Harg, Hne, Hbad.
Qed.



(** The adapter a tool call leaves behind is the one it found, or the one
    a prediction leaves behind. *)
Lemma handle_tool_call_state a method params now t_log t_after :
  (_handle_tool_call admin_get_registry a method params now t_log t_after).2 = a
  ∨ ∃ prediction,
      (_handle_tool_call admin_get_registry a method params now t_log
         t_after).2
      = (predict_action_consequence a prediction now t_log t_after).2.
Proof.
  unfold _handle_tool_call.
  repeat match goal with
         | |- context [if String.eqb ?x ?y then _ else _] =>
             destruct (String.eqb x y)
         end;
    repeat match goal with
           | |- context [require ?k ?o] => destruct o; simpl
           end;
    try (left; by repeat match goal with
                         | |- context [match ?x with _ => _ end] => destruct x
                         end).
  right. eexists.
  match goal with
  | |- context [predict_action_consequence a ?p now t_log t_after] =>
      instantiate (1 := p);
      by destruct (predict_action_consequence a p now t_log t_after) as [[?|] ?]
  end.
Qed.

(** X27.  The Lambda entry point is read-only: whatever the request, the
    adapter stays well formed and every reader returns afterwards what it
    returned before. *)
Theorem lambda_handler_read_only a body requestContext now t_log t_after :
  Adapter.wf a →
  let a' :=
    (lambda_handler admin_get_registry a body requestContext now t_log
       t_after).2 in
  Adapter.wf a'
  ∧ list_locations a' = list_locations a
  ∧ (∀ query now,
       get_location_state a' query now = get_location_state a query now)
  ∧ (∀ location_id actor_id actor_tags now,
       compute_affinity_for_actor a' location_id actor_id actor_tags now
       = compute_affinity_for_actor a location_id actor_id actor_tags now)
  ∧ (∀ query now, query_traces a' query now = query_traces a query now)
  ∧ (∀ location_id days now,
       get_world_history_summary a' location_id days now
       = get_world_history_summary a location_id days now)
  ∧ (∀ now, export_world_state a' now = export_world_state a now).
Proof.
  intros Hwf. simpl.
  assert (Hstate :
    (lambda_handler admin_get_registry a body requestContext now t_log
       t_after).2 = a
    ∨ ∃ prediction,
        (lambda_handler admin_get_registry a body requestContext now t_log
           t_after).2
        = (predict_action_consequence a prediction now t_log t_after).2).
  { unfold lambda_handler. destruct body as [|body]; [by left|].
    destruct (String.prefix "tools/" _).
    - pose proof (handle_tool_call_state a
                    (default "" (Request.method body))
                    (default Params.empty (Request.params body))
                    now t_log t_after) as Hs.
      by destruct (_handle_tool_call _ _ _ _ _ _ _) as [[?|?] ?].
    - left. by repeat match goal with
                      | |- context [if ?b then _ else _] => destruct b
                      end. }
  destruct Hstate as [->|[prediction ->]].
  - split; [done|]. by repeat split.
  - split; [by apply predict_wf|].
    apply (readers_agree a _ Hwf (predict_agree a prediction now t_log t_after)).
Qed.

Lemma handle_unknown_tool a method params now t_log t_after :
  let tool_name :=
    default (str_replace "tools/call/" "" method) (Params.name params) in
  tool_name ∉ known_tools →
  _handle_tool_call admin_get_registry a method params now t_log t_after
  = (LOk (ToolResult.mk (Text ("Unknown tool: " +:+ tool_name)) true), a).
Proof.
  simpl. intros Hn. unfold _handle_tool_call.
  set (tool_name := default _ (Params.name params)) in *.
  assert (Hneq : ∀ k, k ∈ known_tools → String.eqb tool_name k = false).
  { intros k Hk. apply String.eqb_neq. by intros ->. }
  rewrite !Hneq by (unfold known_tools; set_solver). done.
Qed.

Lemma handle_known_tool a method params now t_log t_after :
  default (str_replace "tools/call/" "" method) (Params.name params)
  ∈ known_tools →
  match (_handle_tool_call admin_get_registry a method params now t_log
           t_after).1 with
  | LOk reply => ToolResult.isError reply = false
  | LRaise e => True
  end.
Proof.
  intros Hin. unfold _handle_tool_call.
  set (tool_name := default _ (Params.name params)) in *.
  unfold known_tools in Hin. rewrite !elem_of_cons, elem_of_nil in Hin.
  destruct_or!; try done; rewrite Hin; simpl;
    repeat case_match; simpl in *; simplify_eq; done.
Qed.

(** X28.  The flag [isError] marks unknown tools and nothing else: a reply
    carries it exactly when the tool name is none of the nine tools (the
    "location not found" replies do not), and only a known tool can raise. *)
Theorem tool_call_error_flag a method params now t_log t_after :
  let tool_name :=
    default (str_replace "tools/call/" "" method) (Params.name params) in
  match (_handle_tool_call admin_get_registry a method params now t_log
           t_after).1 with
  | LOk reply =>
      ToolResult.isError reply = bool_decide (tool_name ∉ known_tools)
      ∧ (tool_name ∉ known_tools →
         ToolResult.text reply = Text ("Unknown tool: " +:+ tool_name))
  | LRaise e => tool_name ∈ known_tools
  end.
Proof.
  simpl.
  destruct (decide (default (str_replace "tools/call/" "" method)
                      (Params.name params) ∈ known_tools)) as [Hin|Hn].
  - pose proof (handle_known_tool a method params now t_log t_after Hin) as Hk.
    destruct (_handle_tool_call _ _ _ _ _ _ _).1 as [reply|e]; [|done].
    rewrite Hk. split; [|done]. symmetry. by apply bool_decide_eq_false_2; eauto.
  - rewrite (handle_unknown_tool a method params now t_log t_after Hn). simpl.
    split; [|done]. symmetry. by apply bool_decide_eq_true_2.
Qed.

(** X29.  Through the Lambda entry point the [KeyError] of [query_traces]
    does not escape: a [query_traces] call whose location filter names an
    unknown location is answered with the error response of status 500
    carrying that exception. *)
Theorem lambda_query_unknown_location a arguments uri id requestContext
    location_id now t_log t_after :
  ToolArguments.location_id arguments = Some location_id →
  location_id ≠ "" → location_id ∉ list_locations a →
  ToolArguments.channel arguments = None →
  lambda_handler admin_get_registry a
    (Body (Request.mk (Some "tools/call")
             (Some (Params.mk (Some "query_traces") (Some arguments) uri)) id))
    requestContext now t_log t_after
  = (ErrorResponse 500 (StrOf (LKeyError location_id)), a).
Proof.
  intros Hid Hne Habsent Hchannel.
  unfold lambda_handler, _handle_tool_call. simpl. rewrite Hchannel.
  destruct (query_traces_unknown_location a
              (TraceQuery.mk (ToolArguments.location_id arguments)
                 (ToolArguments.actor_id arguments)
                 (ToolArguments.event_type arguments) None
                 (default 0.0 (ToolArguments.min_intensity arguments))
                 (default 100%Z (ToolArguments.limit arguments)))
              now location_id Hid Hne Habsent) as [-> _].
  done.
Qed.

(** X30.  The two location resources agree on a present location and differ
    on an unknown one: for the URI [location://<id>] with an [id] free of
    [':'], both give the JSON of the location state when [id] is present;
    when it is not, the Lambda handler answers with the empty object [{}]
    and the resource of the MCP server with an error object. *)
Theorem location_resource_answers a name arguments location_id now :
  ":"%char ∉ list_ascii_of_string location_id →
  let uri := "location://" +:+ location_id in
  let lambda :=
    _handle_resource_read admin_get_registry a
      (Params.mk name arguments (Some uri)) now in
  match get_location_state a (LocationQuery.of_id location_id) now with
  | Some state =>
      lambda = ResourceContents.mk uri "application/json" (Dumps (PState state))
      ∧ get_location_resource a location_id now = Dumps (PState state)
  | None =>
      lambda = ResourceContents.mk uri "application/json" (Text "{}")
      ∧ get_location_resource a location_id now
        = Text ("{" +:+ dquote +:+ "error" +:+ dquote +:+ ": " +:+ dquote
                +:+ "Location '" +:+ location_id +:+ "' not found"
                +:+ dquote +:+ "}")
  end.
Proof.
  intros Hid. simpl. unfold _handle_resource_read, get_location_resource.
  simpl Params.uri. simpl default.
  rewrite prefix_app_self, (replace_location_uri _ Hid).
  by destruct (get_location_state a (LocationQuery.of_id location_id) now).
Qed.

End ToolExtras.

(* ===================================================================== *)
(** ** The further properties on the examples *)
(* ===================================================================== *)

Local Notation woods := Fixture.whispering_woods.
Local Notation alice_burns :=
  (ActionPrediction.mk "alice" ["elf"] "whispering_woods" "harm.fire" 1).

Lemma database_mode_is_empty_witness :
  str_truthy (Some "postgresql://db") = true
  ∧ list_locations
      (EvenflowAdapter Samples.blank (Some "postgresql://db") Samples.files).1
    = [].
Proof.
  split; [reflexivity|].
  pose proof (database_mode_is_empty (H := W) Samples.blank
                (Some "postgresql://db") Samples.files
                (LocationQuery.of_id "whispering_woods")
                (TraceQuery.mk None None None None 0 10)
                "whispering_woods" "alice" ["elf"] alice_burns
                (day 100) (day 100) (day 100) 30 (day 100) eq_refl) as Hd.
  simpl in Hd. apply Hd.
Defined.

Lemma prediction_invisible_to_readers_witness :
  Adapter.wf world
  ∧ query_traces (H := W)
      (predict_action_consequence (H := W) world alice_burns
         (day 100) (day 100) (day 100)).2
      (TraceQuery.mk None None None None 0 10) (day 100)
    = query_traces (H := W) world (TraceQuery.mk None None None None 0 10)
        (day 100).
Proof.
  assert (Adapter.wf world) as Hwf.
  { split; [by apply (bool_decide_unpack _); vm_compute|].
    by apply (bool_decide_unpack _); vm_compute. }
  split; [exact Hwf|].
  apply (prediction_invisible_to_readers (H := W) world alice_burns
           (day 100) (day 100) (day 100) Hwf).
Defined.

Lemma prediction_is_repeatable_witness :
  Adapter.wf world
  ∧ (predict_action_consequence (H := W)
       (predict_action_consequence (H := W) world alice_burns
          (day 100) (day 100) (day 100)).2
       alice_burns (day 100) (day 100) (day 100)).1
    = (predict_action_consequence (H := W) world alice_burns
         (day 100) (day 100) (day 100)).1.
Proof.
  assert (Adapter.wf world) as Hwf.
  { split; [by apply (bool_decide_unpack _); vm_compute|].
    by apply (bool_decide_unpack _); vm_compute. }
  split; [exact Hwf|].
  apply (prediction_is_repeatable (H := W)), Hwf.
Defined.

Lemma prediction_affinities_witness :
  resolve world "whispering_woods" = Some woods
  ∧ ∃ consequence,
      (predict_action_consequence (H := W) world alice_burns
         (day 100) (day 100) (day 100)).1 = Some consequence
      ∧ ActionConsequence.affinity_before consequence
        = compute_affinity_for_actor (H := W) world "whispering_woods"
            "alice" ["elf"] (day 100).
Proof.
  split; [reflexivity|].
  destruct (prediction_affinities (H := W) world alice_burns
              (day 100) (day 100) (day 100) woods eq_refl)
    as (consequence & Hc & Hbefore & _).
  exists consequence. split; [exact Hc|exact Hbefore].
Defined.

Lemma query_actor_filter_personal_only_witness :
  let query := TraceQuery.mk None None None (Some GROUP) 0 10 in
  (TraceQuery.channel query = Some GROUP
   ∨ TraceQuery.channel query = Some BEHAVIOR)
  ∧ query_traces (H := W) world
      (TraceQuery.mk None (Some "nobody") None (Some GROUP) 0 10) (day 100)
    = query_traces (H := W) world query (day 100).
Proof.
  simpl. split; [by left|].
  apply (query_actor_filter_personal_only (H := W) world
           (TraceQuery.mk None None None (Some GROUP) 0 10) (Some "nobody")
           (day 100)).
  by left.
Defined.

Lemma query_limit_cases_witness :
  let query := TraceQuery.mk (Some "whispering_woods") None None None 0 0 in
  scanned_locations world query = Ok [0%nat]
  ∧ query_traces (H := W) world query (day 100) = Ok [].
Proof.
  simpl. split; [reflexivity|].
  apply (query_limit_cases (H := W) world
           (TraceQuery.mk (Some "whispering_woods") None None None 0 0)
           (day 100) [0%nat] eq_refl).
  reflexivity.
Defined.

Lemma state_lists_every_trace_witness :
  resolve world "whispering_woods" = Some woods
  ∧ ∃ state,
      get_location_state (H := W) world
        (LocationQuery.of_id "whispering_woods") (day 100) = Some state
      ∧ TraceInfo.channel <$> LocationState.traces state
        = ["personal"; "personal"; "personal"; "group";
           "behavior"; "behavior"; "behavior"].
Proof.
  split; [reflexivity|].
  destruct (state_lists_every_trace (H := W) world
              (LocationQuery.of_id "whispering_woods") (day 100) woods
              eq_refl eq_refl) as (state & Hs & Hchannels & _).
  exists state. split; [exact Hs|exact Hchannels].
Defined.

Lemma state_without_decay_witness :
  let query := LocationQuery.mk "whispering_woods" true true false in
  LocationQuery.decay_to_now query = false
  ∧ match get_location_state (H := W) world query (day 200) with
    | None => resolve world "whispering_woods" = None
    | Some state =>
        Forall (λ t, TraceInfo.decayed_value t = TraceInfo.accumulated t)
          (LocationState.traces state)
    end.
Proof.
  simpl. split; [reflexivity|].
  apply (state_without_decay (H := W) world
           (LocationQuery.mk "whispering_woods" true true false) (day 200)).
  reflexivity.
Defined.

Lemma query_results_in_location_state_witness :
  let query := TraceQuery.mk (Some "whispering_woods") None None None 0.2 3 in
  TraceQuery.location_id query = Some "whispering_woods"
  ∧ "whispering_woods" ≠ ""
  ∧ resolve world "whispering_woods" = Some woods
  ∧ ∃ results state,
      query_traces (H := W) world query (day 100) = Ok results
      ∧ get_location_state (H := W) world
          (LocationQuery.of_id "whispering_woods") (day 100) = Some state
      ∧ results ⊆ LocationState.traces state.
Proof.
  simpl. split; [reflexivity|]. split; [done|]. split; [reflexivity|].
  apply (query_results_in_location_state (H := W) world
           (TraceQuery.mk (Some "whispering_woods") None None None 0.2 3)
           (day 100) "whispering_woods" woods); [reflexivity|done|reflexivity].
Defined.


Lemma history_mood_cases_witness :
  resolve Fixture.embers "ember_field" = Some Fixture.ember_field
  ∧ history_cutoff (day 100) 30 = Ok (Finite (day 70))
  ∧ ∃ summary,
      get_world_history_summary (H := W) Fixture.embers "ember_field" 30
        (day 100) = Ok (Some summary)
      ∧ WorldHistorySummary.mood summary = "troubled".
Proof.
  assert (history_cutoff (day 100) 30 = Ok (Finite (day 70))) as Hcutoff
    by (vm_compute; reflexivity).
  split; [reflexivity|]. split; [exact Hcutoff|].
  destruct (history_mood_cases (H := W) Fixture.embers "ember_field" 30
              (day 100) Fixture.ember_field (Finite (day 70)) eq_refl Hcutoff)
    as (summary & Hs & _ & Htroubled & _).
  exists summary. split; [exact Hs|].
  apply (proj2 Htroubled). split; vm_compute; reflexivity.
Defined.

Lemma history_folklore_seeds_witness :
  resolve world "whispering_woods" = Some woods
  ∧ history_cutoff (day 100) 30 = Ok (Finite (day 70))
  ∧ ∃ summary,
      get_world_history_summary (H := W) world "whispering_woods" 30 (day 100)
      = Ok (Some summary)
      ∧ "The whispering woods remembers those who brought harm"
        ∈ WorldHistorySummary.folklore_seeds summary
      ∧ "Fire is forbidden in these parts"
        ∈ WorldHistorySummary.folklore_seeds summary.
Proof.
  assert (history_cutoff (day 100) 30 = Ok (Finite (day 70))) as Hcutoff
    by (vm_compute; reflexivity).
  split; [reflexivity|]. split; [exact Hcutoff|].
  destruct (history_folklore_seeds (H := W) world "whispering_woods" 30
              (day 100) woods (Finite (day 70)) eq_refl Hcutoff)
    as (summary & Hs & Hharm & Hfire & _).
  exists summary. split; [exact Hs|]. split.
  - apply (proj2 Hharm). split; vm_compute; reflexivity.
  - apply (proj2 Hfire). vm_compute. reflexivity.
Defined.

Lemma history_quiet_window_witness :
  resolve world "whispering_woods" = Some woods
  ∧ history_cutoff (day 200) 30 = Ok (Finite (day 170))
  ∧ Forall (λ kt, float_lt (Finite (TraceRecord.last_updated kt.2))
                    (Finite (day 170)))
      (Location.personal_traces woods)
  ∧ Forall (λ kt, float_lt (Finite (TraceRecord.last_updated kt.2))
                    (Finite (day 170)))
      (Location.behavior_traces woods)
  ∧ get_world_history_summary (H := W) world "whispering_woods" 30 (day 200)
    = Ok (Some (WorldHistorySummary.mk "whispering_woods" 30 [] [] "peaceful"
                  ["Fire is forbidden in these parts"])).
Proof.
  assert (history_cutoff (day 200) 30 = Ok (Finite (day 170))) as Hcutoff
    by (vm_compute; reflexivity).
  assert (Hp : Forall (λ kt, float_lt (Finite (TraceRecord.last_updated kt.2))
                               (Finite (day 170)))
                 (Location.personal_traces woods))
    by (repeat constructor; reflexivity).
  assert (Hb : Forall (λ kt, float_lt (Finite (TraceRecord.last_updated kt.2))
                               (Finite (day 170)))
                 (Location.behavior_traces woods))
    by (repeat constructor; reflexivity).
  split; [reflexivity|]. split; [exact Hcutoff|].
  split; [exact Hp|]. split; [exact Hb|].
  exact (history_quiet_window (H := W) world "whispering_woods" 30 (day 200)
           woods (Finite (day 170)) eq_refl Hcutoff Hp Hb).
Defined.

Lemma explain_valuation_without_dot_witness :
  resolve world "whispering_woods" = Some woods
  ∧ "."%char ∉ list_ascii_of_string "harm"
  ∧ explain_valuation world "whispering_woods" "harm"
    = ToolOk (Valuation.mk "harm" (-0.3) "exact" None
                (Some "Location has explicit valuation for 'harm'")).
Proof.
  assert ("."%char ∉ list_ascii_of_string "harm") as Hdot
    by (by apply (bool_decide_unpack _); vm_compute).
  split; [reflexivity|]. split; [exact Hdot|].
  apply (explain_valuation_without_dot world "whispering_woods" "harm" woods
           eq_refl Hdot).
Defined.

Lemma invalid_channel_rejected_first_witness :
  let arguments :=
    ToolArguments.mk (Some "nowhere") None None None None None
      (Some "Personal") None None None None in
  "Personal" ≠ "" ∧ DecayChannel_of_value "Personal" = None
  ∧ ToolArguments.channel arguments = Some "Personal"
  ∧ tool_query_traces (H := W) world (Some "nowhere") None None
      (Some "Personal") 0 100 (day 100)
    = Ok [ToolError
            "Invalid channel 'Personal'. Use: personal, group, behavior"].
Proof.
  simpl. split; [done|]. split; [reflexivity|]. split; [reflexivity|].
  apply (invalid_channel_rejected_first (H := W) Fixture.open_registry world
           "tools/call" None (Some "nowhere") None None "Personal" 0 100
           (ToolArguments.mk (Some "nowhere") None None None None None
              (Some "Personal") None None None None)
           (day 100) (day 100) (day 100)); [done|reflexivity|reflexivity].
Defined.

Lemma lambda_handler_read_only_witness :
  let body :=
    Body (Request.mk (Some "tools/call")
            (Some (Params.mk (Some "predict_action")
                     (Some (ToolArguments.mk (Some "whispering_woods") None
                              None (Some "alice") (Some ["elf"])
                              (Some "harm.fire") None None None (Some 1)
                              None)) None)) (Some 7%Z)) in
  Adapter.wf world
  ∧ list_locations
      (lambda_handler (H := W) Fixture.open_registry world body false
         (day 100) (day 100) (day 100)).2
    = list_locations world.
Proof.
  assert (Adapter.wf world) as Hwf.
  { split; [by apply (bool_decide_unpack _); vm_compute|].
    by apply (bool_decide_unpack _); vm_compute. }
  simpl. split; [exact Hwf|].
  apply (lambda_handler_read_only (H := W) Fixture.open_registry world
           (Body (Request.mk (Some "tools/call")
                    (Some (Params.mk (Some "predict_action")
                             (Some (ToolArguments.mk (Some "whispering_woods")
                                      None None (Some "alice") (Some ["elf"])
                                      (Some "harm.fire") None None None
                                      (Some 1) None)) None)) (Some 7%Z)))
           false (day 100) (day 100) (day 100) Hwf).
Defined.

Lemma lambda_query_unknown_location_witness :
  let arguments :=
    ToolArguments.mk (Some "nowhere") None None None None None None None None
      None None in
  ToolArguments.location_id arguments = Some "nowhere"
  ∧ "nowhere" ≠ "" ∧ "nowhere" ∉ list_locations world
  ∧ ToolArguments.channel arguments = None
  ∧ lambda_handler (H := W) Fixture.open_registry world
      (Body (Request.mk (Some "tools/call")
               (Some (Params.mk (Some "query_traces") (Some arguments) None))
               (Some 7%Z)))
      true (day 100) (day 100) (day 100)
    = (ErrorResponse 500 (StrOf (LKeyError "nowhere")), world).
Proof.
  assert ("nowhere" ∉ list_locations world) as Habsent
    by (by apply (bool_decide_unpack _); vm_compute).
  simpl. split; [reflexivity|]. split; [done|]. split; [exact Habsent|].
  split; [reflexivity|].
  apply (lambda_query_unknown_location (H := W) Fixture.open_registry world
           (ToolArguments.mk (Some "nowhere") None None None None None None
              None None None None)
           None (Some 7%Z) true "nowhere" (day 100) (day 100) (day 100));
    [reflexivity|done|exact Habsent|reflexivity].
Defined.

Lemma location_resource_answers_witness :
  ":"%char ∉ list_ascii_of_string "nowhere"
  ∧ _handle_resource_read (H := W) Fixture.open_registry world
      (Params.mk None None (Some "location://nowhere")) (day 100)
    = ResourceContents.mk "location://nowhere" "application/json" (Text "{}").
Proof.
  assert (":"%char ∉ list_ascii_of_string "nowhere") as Hid
    by (by apply (bool_decide_unpack _); vm_compute).
  split; [exact Hid|].
  apply (location_resource_answers (H := W) Fixture.open_registry world
           None None "nowhere" (day 100) Hid).
Defined.
